(** * Projected SGD for logistic regression (SGD.py): model and properties

    The script computes on Python floats and numpy arrays.  Its functions
    are embedded once, over an interface [Arith] of the arithmetic they use
    ([Transcendental] adds [np.exp] and [np.log]), and the interface has two
    instances:
    - [R], exact real arithmetic, in which the general properties are
      proved; it knows no rounding and no overflow, so a property proved in
      it is a property of the computation in exact arithmetic;
    - the kernel's binary64 floats, the arithmetic the script runs on, in
      which the functions can be evaluated: sums, products, quotients,
      comparisons and square roots bit for bit, [exp] and [log] as the
      nearest float.

    Python lists and one-dimensional numpy arrays are [list num], labels
    and scenario numbers are [Z], and the global generator of the [random]
    module is an explicit state threaded through a small state monad. *)

From Stdlib Require Import PrimFloat FloatOps SpecFloat.
From Stdlib Require Import ZArith List Bool Lia Permutation.
From Stdlib Require Import Reals Lra.
Import ListNotations.

(** ** The arithmetic of the script *)

Declare Scope num_scope.
Delimit Scope num_scope with num.

Class Arith (num : Type) : Type := {
  num_of_Z : Z -> num;              (* an int used where a float is expected *)
  num_add : num -> num -> num;
  num_sub : num -> num -> num;
  num_mul : num -> num -> num;
  num_div : num -> num -> num;
  num_opp : num -> num;
  num_gtb : num -> num -> bool;     (* a > b *)
  num_ltb : num -> num -> bool;     (* a < b *)
  num_neqb : num -> num -> bool;    (* a != b *)
  np_sqrt : num -> num
}.

Class Transcendental (num : Type) : Type := {
  np_exp : num -> num;
  np_log : num -> num
}.

Notation "x + y" := (num_add x y) : num_scope.
Notation "x - y" := (num_sub x y) : num_scope.
Notation "x * y" := (num_mul x y) : num_scope.
Notation "x / y" := (num_div x y) : num_scope.
Notation "- x" := (num_opp x) : num_scope.
Notation "x >? y" := (num_gtb x y) : num_scope.
Notation "x <? y" := (num_ltb x y) : num_scope.
Notation "x !=? y" := (num_neqb x y) (at level 70) : num_scope.
Notation "# z" := (num_of_Z z%Z) (at level 1, format "# z") : num_scope.

(** ** A state monad for the random generator *)

Definition State (St A : Type) : Type := St -> A * St.

Definition ret {St A : Type} (a : A) : State St A := fun s => (a, s).

Definition bind {St A B : Type} (m : State St A) (k : A -> State St B)
  : State St B :=
  fun s => let (a, s') := m s in k a s'.

Declare Scope state_scope.
Delimit Scope state_scope with state.
Notation "x <- m ;; k" := (bind m (fun x => k))
  (at level 61, m at next level, right associativity) : state_scope.
Notation "' pat <- m ;; k" := (bind m (fun x => match x with pat => k end))
  (at level 61, pat pattern, m at next level, right associativity) : state_scope.

(** [[f() for i in range(n)]] with an effectful [f]. *)
Fixpoint replicateM {St A : Type} (n : nat) (m : State St A)
  : State St (list A) :=
  match n with
  | O => ret []
  | S n' => (a <- m ;; l <- replicateM n' m ;; ret (a :: l))%state
  end.

(** The generator of Python's [random] module: its state [rng] and the two
    functions the script calls, [random.sample(population, k)] and
    [random.gauss(mu, sigma)]. *)
Class Random (num rng : Type) : Type := {
  random_sample : list Z -> nat -> State rng (list Z);
  random_gauss : num -> num -> State rng num
}.

(** ** Lists updated by index *)

(** [l[i] = a].  Every index the script writes comes from [range(len(l))];
    out of range (where Python raises IndexError) the list is left as it is. *)
Fixpoint list_set {A : Type} (l : list A) (i : nat) (a : A) : list A :=
  match l, i with
  | [], _ => []
  | _ :: t, O => a :: t
  | h :: t, S i' => h :: list_set t i' a
  end.

(** ** Module constants *)

Definition inputDimension : nat := 5.
Definition num_test_samples : nat := 400.

Section Geometry.

Context {num : Type} {AR : Arith num}.
Local Open Scope num_scope.

Definition negativeCenter : num := - (#1 / #5).
Definition positiveCenter : num := #1 / #5.

(** *** norm *)

Definition norm (vector : list num) : num :=
  let sum :=
    fold_left (fun sum i => sum + nth i vector #0 * nth i vector #0)
              (seq 0 (length vector)) #0 in
  np_sqrt sum.

(** *** project

    The function overwrites its argument in place, index by index, and
    returns it. *)

Definition project (scenario : Z) (u_vector : list num) : list num :=
  if (scenario =? 1)%Z then
    fold_left
      (fun u_vector i =>
         if nth i u_vector #0 >? #1 then list_set u_vector i #1
         else if nth i u_vector #0 <? #(-1) then list_set u_vector i #(-1)
         else u_vector)
      (seq 0 (length u_vector)) u_vector
  else if (scenario =? 2)%Z then
    let norm_u_vector := norm u_vector in
    if norm_u_vector >? #1 then
      fold_left
        (fun u_vector i => list_set u_vector i (nth i u_vector #0 / norm_u_vector))
        (seq 0 (length u_vector)) u_vector
    else u_vector
  else u_vector.

(** What the loops of [project] do to one coordinate. *)
Definition clamp (c : num) : num :=
  if c >? #1 then #1 else if c <? #(-1) then #(-1) else c.

(** The sum that the loop of [norm] accumulates. *)
Definition sum_squares (vector : list num) : num :=
  fold_left (fun sum c => sum + c * c) vector #0.

(** *** numpy helpers (from numpy's documented behaviour) *)

(** [np.dot] of two one-dimensional arrays: the sum of the products, added
    from left to right (numpy's order of additions is not fixed and can
    differ in the last bit).  On arrays of different lengths, where numpy
    raises ValueError, the longer one is cut. *)
Definition np_dot (w x : list num) : num :=
  fold_left (fun s p => s + fst p * snd p) (combine w x) #0.

(** [np.sign]: -1 below zero, 1 above, 0 at zero, and the argument itself
    when it compares with nothing (nan). *)
Definition np_sign (d : num) : num :=
  if d <? #0 then #(-1)
  else if d >? #0 then #1
  else if d !=? #0 then d
  else #0.

(** The sum of a sequence, from left to right (numpy adds pairwise on
    longer sequences, which can differ in the last bit). *)
Definition np_sum (l : list num) : num := fold_left num_add l #0.

(** [np.average] of a one-dimensional sequence. *)
Definition np_average (l : list num) : num :=
  np_sum l / #(Z.of_nat (length l)).

(** [np.min] of a one-dimensional sequence: the running minimum from the
    first element on.  On an empty sequence, where numpy raises ValueError,
    it is 0; a nan is kept only when it comes first, where numpy returns
    nan wherever it is. *)
Definition running_min (t : list num) (a : num) : num :=
  fold_left (fun m b => if b <? m then b else m) t a.

Definition np_min (l : list num) : num :=
  match l with
  | [] => #0
  | a :: t => running_min t a
  end.

(** [np.std], the population standard deviation
    [sqrt(mean(abs(x - x.mean())**2))]. *)
Definition np_std (l : list num) : num :=
  let m := np_average l in
  np_sqrt (np_average (map (fun x => (x - m) * (x - m)) l)).

Definition np_zeros (n : nat) : list num := repeat #0 n.

(** [np.average(a, axis=0)] of a two-dimensional array given by its rows:
    the average of every column. *)
Definition np_average_axis0 (rows : list (list num)) : list num :=
  map (fun j => np_average (map (fun row => nth j row #0) rows))
      (seq 0 (length (hd [] rows))).

(** Element-wise operations of numpy arrays of one shape. *)
Definition np_scale (c : num) (X : list num) : list num := map (num_mul c) X.
Definition np_sub (a b : list num) : list num :=
  map (fun p => fst p - snd p) (combine a b).

(** *** binary_loss *)

Definition binary_loss (w x : list num) (y : Z) : Z :=
  Z.b2z (np_sign (np_dot w x) !=? #y).

(** The list of average binary losses that [computeLosses] builds, one
    entry per predictor. *)
Definition binary_loss_estimates (W_hat_list : list (list num))
    (test_dataset : list (list num * Z)) : list num :=
  map (fun W_hat =>
         np_average (map (fun test_sample =>
                            #(binary_loss W_hat (fst test_sample) (snd test_sample)))
                         test_dataset))
      W_hat_list.

End Geometry.

Section Learning.

Context {num rng : Type} {AR : Arith num} {TR : Transcendental num}
        {RG : Random num rng}.
Local Open Scope num_scope.
Local Open Scope state_scope.

(** *** get_Sample_Point *)

Definition get_Sample_Point (scenario : Z) (sigma : num)
  : State rng (list num * Z) :=
  l <- random_sample [(-1)%Z; 1%Z] 1 ;;
  let y := nth 0 l 0%Z in
  u_vector <-
    (if (y =? -1)%Z
     then replicateM inputDimension (random_gauss negativeCenter sigma)
     else replicateM inputDimension (random_gauss positiveCenter sigma)) ;;
  let x_list := project scenario u_vector in
  let x_list := x_list ++ [#1] in
  ret (x_list, y).

(** *** gen_test_dataset *)

Definition gen_test_dataset (scenario : Z) (sigma : num)
  : State rng (list (list num * Z)) :=
  replicateM num_test_samples (get_Sample_Point scenario sigma).

(** *** logistic_loss and its gradient *)

Definition logistic_loss (w x : list num) (y : Z) : num :=
  np_log (#1 + np_exp (- np_dot w x * #y)).

Definition logistic_loss_gradient (W X : list num) (y : Z) : list num :=
  np_scale (#(-1) / (#1 + np_exp (#y * np_dot W X)) * #y) X.

(** *** sgd *)

Definition sgd_M (scenario : Z) : num :=
  if (scenario =? 1)%Z
  then np_sqrt #(2 ^ 2 * (Z.of_nat inputDimension + 1))
  else #2.

Definition sgd_rho (scenario : Z) : num := sgd_M scenario / #2.

Definition learning_rate (num_training_samples : Z) (scenario : Z) : num :=
  sgd_M scenario / (sgd_rho scenario * np_sqrt #num_training_samples).

(** One pass of the body of the [for] loop. *)
Definition sgd_step (scenario : Z) (sigma lr : num) (W : list num)
  : State rng (list num) :=
  '(X, y) <- get_Sample_Point scenario sigma ;;
  let W := np_sub W (np_scale lr (logistic_loss_gradient W X y)) in
  let W := project scenario W in
  ret W.

(** [n] passes of the loop, from the weights [W] and the list [W_list]. *)
Fixpoint sgd_loop (n : nat) (scenario : Z) (sigma lr : num)
    (W : list num) (W_list : list (list num))
  : State rng (list num * list (list num)) :=
  match n with
  | O => ret (W, W_list)
  | S n' =>
      W <- sgd_step scenario sigma lr W ;;
      sgd_loop n' scenario sigma lr W (W_list ++ [W])
  end.

(** The weights that [n] passes of the loop append to [W_list], in order. *)
Fixpoint sgd_iterates (n : nat) (scenario : Z) (sigma lr : num) (W : list num)
  : State rng (list (list num)) :=
  match n with
  | O => ret []
  | S n' =>
      W <- sgd_step scenario sigma lr W ;;
      rest <- sgd_iterates n' scenario sigma lr W ;;
      ret (W :: rest)
  end.

(** The list [W_list] when the loop [for i in range(1, num_training_samples)]
    is over. *)
Definition sgd_W_list (num_training_samples : Z) (scenario : Z) (sigma : num)
  : State rng (list (list num)) :=
  let lr := learning_rate num_training_samples scenario in
  let W := np_zeros (inputDimension + 1) in
  let W_list := [W] in
  '(_, W_list) <-
     sgd_loop (Z.to_nat (num_training_samples - 1)) scenario sigma lr W W_list ;;
  ret W_list.

Definition sgd (num_training_samples : Z) (scenario : Z) (sigma : num)
  : State rng (list num) :=
  W_list <- sgd_W_list num_training_samples scenario sigma ;;
  ret (np_average_axis0 W_list).

(** *** computeLosses *)

Record Losses : Type := {
  excess_risk : num;
  std_risk : num;
  avg_binary_err : num;
  std_binary_err : num
}.

Definition logistic_loss_estimates (W_hat_list : list (list num))
    (test_dataset : list (list num * Z)) : list num :=
  map (fun W_hat =>
         np_average (map (fun test_sample =>
                            logistic_loss W_hat (fst test_sample) (snd test_sample))
                         test_dataset))
      W_hat_list.

Definition computeLosses (W_hat_list : list (list num))
    (test_dataset : list (list num * Z)) : Losses :=
  let logistic_loss_estimate_list :=
    logistic_loss_estimates W_hat_list test_dataset in
  let binary_loss_estimate_list :=
    binary_loss_estimates W_hat_list test_dataset in
  let min_risk := np_min logistic_loss_estimate_list in
  let avg_risk := np_average logistic_loss_estimate_list in
  let std_risk := np_std logistic_loss_estimate_list in
  let avg_binary_err := np_average binary_loss_estimate_list in
  let std_binary_err := np_std binary_loss_estimate_list in
  {| excess_risk := avg_risk - min_risk;
     std_risk := std_risk;
     avg_binary_err := avg_binary_err;
     std_binary_err := std_binary_err |}.

(** *** expirement

    The output of the script is its calls of [plt.errorbar(x, y, yerr, ...)];
    a call is recorded with the three sequences it receives. *)

Record Errorbar : Type := {
  errorbar_x : list Z;
  errorbar_y : list num;
  errorbar_yerr : list num
}.

Definition n_list : list Z := [50; 100; 500; 1000]%Z.

(** [[0.05, 3]]; 0.05 is the float nearest to 5/100, which is what the
    division returns. *)
Definition sigma_list : list num := [#5 / #100; #3].

(** The loop [for n in n_list], from the four lists as built so far. *)
Fixpoint expirement_sweep (scenario : Z) (sigma : num)
    (test_dataset : list (list num * Z)) (ns : list Z)
    (excess_risk_list std_logistic_loss_list
     average_binary_loss_list std_binary_loss_list : list num)
  : State rng (list num * list num * list num * list num) :=
  match ns with
  | [] => ret (excess_risk_list, std_logistic_loss_list,
               average_binary_loss_list, std_binary_loss_list)
  | n :: ns' =>
      W_hat_list <- replicateM 30 (sgd n scenario sigma) ;;
      let estimated_losses := computeLosses W_hat_list test_dataset in
      expirement_sweep scenario sigma test_dataset ns'
        (excess_risk_list ++ [excess_risk estimated_losses])
        (std_logistic_loss_list ++ [std_risk estimated_losses])
        (average_binary_loss_list ++ [avg_binary_err estimated_losses])
        (std_binary_loss_list ++ [std_binary_err estimated_losses])
  end.

(** The loop [for sigma in sigma_list], from the plots drawn so far. *)
Fixpoint expirement_loop (scenario : Z) (sigmas : list num)
    (plots : list Errorbar) : State rng (list Errorbar) :=
  match sigmas with
  | [] => ret plots
  | sigma :: sigmas' =>
      test_dataset <- gen_test_dataset scenario sigma ;;
      '(excess_risk_list, std_logistic_loss_list,
        average_binary_loss_list, std_binary_loss_list) <-
         expirement_sweep scenario sigma test_dataset n_list [] [] [] [] ;;
      expirement_loop scenario sigmas'
        (plots
         ++ [ {| errorbar_x := n_list;
                 errorbar_y := excess_risk_list;
                 errorbar_yerr := std_logistic_loss_list |};
              {| errorbar_x := n_list;
                 errorbar_y := average_binary_loss_list;
                 errorbar_yerr := std_binary_loss_list |} ])
  end.

Definition expirement (scenario : Z) : State rng (list Errorbar) :=
  expirement_loop scenario sigma_list [].

(** The script run as a program: [expirement(1)], then [expirement(2)]. *)
Definition main : State rng (list Errorbar) :=
  plots1 <- expirement 1 ;;
  plots2 <- expirement 2 ;;
  ret (plots1 ++ plots2).

(** The losses of 30 predictors on a test set. *)
Definition losses_of_trials (test_dataset : list (list num * Z))
    (L : Losses) : Prop :=
  exists W_hat_list : list (list num),
    length W_hat_list = 30%nat /\ L = computeLosses W_hat_list test_dataset.

(** The losses of the 30 predictors that [sgd] trains for [n] iterations,
    from some state of the generator on, on a test set. *)
Definition trial_losses (scenario : Z) (sigma : num)
    (test_dataset : list (list num * Z)) (n : Z) (L : Losses) : Prop :=
  exists g : rng,
    L = computeLosses (fst (replicateM 30 (sgd n scenario sigma) g))
                      test_dataset.

(** A plot over [n_list] with one value and one error bar per entry. *)
Definition errorbar_shape (p : Errorbar) : Prop :=
  errorbar_x p = n_list
  /\ length (errorbar_y p) = length (errorbar_x p)
  /\ length (errorbar_yerr p) = length (errorbar_x p).

(** *** Training on given samples

    The update of one pass of the loop, once its sample is drawn, and the
    weights that a list of samples produces one after the other. *)

Definition sgd_update (scenario : Z) (lr : num) (W : list num)
    (sample : list num * Z) : list num :=
  project scenario
    (np_sub W (np_scale lr (logistic_loss_gradient W (fst sample) (snd sample)))).

Fixpoint sgd_on_samples (scenario : Z) (lr : num) (W : list num)
    (samples : list (list num * Z)) : list (list num) :=
  match samples with
  | [] => []
  | sample :: samples' =>
      sgd_update scenario lr W sample
      :: sgd_on_samples scenario lr (sgd_update scenario lr W sample) samples'
  end.

End Learning.

(** ** The two arithmetics *)

(** Exact real arithmetic. *)
#[export] Instance R_Arith : Arith R := {|
  num_of_Z := IZR;
  num_add := Rplus;
  num_sub := Rminus;
  num_mul := Rmult;
  num_div := Rdiv;
  num_opp := Ropp;
  num_gtb := fun a b => if Rgt_dec a b then true else false;
  num_ltb := fun a b => if Rlt_dec a b then true else false;
  num_neqb := fun a b => if Req_dec_T a b then false else true;
  np_sqrt := sqrt
|}.

#[export] Instance R_Transcendental : Transcendental R := {|
  np_exp := exp;
  np_log := ln
|}.

(** IEEE 754 binary64, the arithmetic of Python floats and of numpy's
    float64.  An int is converted binary digit by digit, which is exact up
    to 2^53. *)
Fixpoint float_of_pos (p : positive) : float :=
  match p with
  | xH => 1%float
  | xO p' => (2 * float_of_pos p')%float
  | xI p' => (2 * float_of_pos p' + 1)%float
  end.

Definition float_of_Z (z : Z) : float :=
  match z with
  | Z0 => 0%float
  | Zpos p => float_of_pos p
  | Zneg p => (- float_of_pos p)%float
  end.

#[export] Instance float_Arith : Arith float := {|
  num_of_Z := float_of_Z;
  num_add := PrimFloat.add;
  num_sub := PrimFloat.sub;
  num_mul := PrimFloat.mul;
  num_div := PrimFloat.div;
  num_opp := PrimFloat.opp;
  num_gtb := fun a b => PrimFloat.ltb b a;
  num_ltb := PrimFloat.ltb;
  num_neqb := fun a b => negb (PrimFloat.eqb a b);
  np_sqrt := PrimFloat.sqrt
|}.

(** [np.exp] and [np.log] in binary64.  numpy takes them from the C library
    of the platform, which returns the float nearest to the exact value up
    to its last-bit accuracy; they are modelled as that nearest float (ties
    to even), computed from a fixed-point approximation of [libm_bits] bits,
    with the special values of the C standard: [exp(+-0) = 1],
    [exp(-inf) = 0], overflow to [inf], [log(0) = -inf], [log(inf) = inf]
    and [nan] for the logarithm of a negative number. *)

Definition libm_bits : Z := 256.

(** The float nearest to [n / d], for positive [n] and [d]. *)
Definition round_ratio (n d : Z) : float :=
  let k0 := (Z.log2 n - Z.log2 d)%Z in
  let k := if (if 0 <=? k0 then d * 2 ^ k0 <=? n else d <=? n * 2 ^ (- k0))%Z
           then k0 else (k0 - 1)%Z in
  let e := Z.max (k - 52) (-1074) in
  let num := (if 0 <=? e then n else n * 2 ^ (- e))%Z in
  let den := (if 0 <=? e then d * 2 ^ e else d)%Z in
  let q := (num / den)%Z in
  let r := (num mod den)%Z in
  let m := (if 2 * r <? den then q
            else if den <? 2 * r then q + 1
            else if Z.even q then q else q + 1)%Z in
  if (m =? 0)%Z then 0%float
  else if (1024 <=? Z.log2 m + e)%Z then infinity
  else Z.ldexp (float_of_Z m) e.

(** [exp(t / 2^libm_bits) * 2^libm_bits] for [0 <= t <= 2^libm_bits], by
    the exponential series. *)
Definition exp_series (t : Z) : Z :=
  let one := (2 ^ libm_bits)%Z in
  fst (fold_left (fun st k =>
                    let term := (snd st * t / (Z.of_nat k * one))%Z in
                    ((fst st + term)%Z, term))
                 (seq 1 70) (one, one)).

(** [exp(m * 2^e) * 2^libm_bits] for [0 < m] and [m * 2^e < 1024]: the
    series on the argument halved [j] times, then [j] squarings. *)
Definition exp_fixed (m e : Z) : Z :=
  let j := Z.max 0 (Z.log2 m + 1 + e) in
  let s := (e - j + libm_bits)%Z in
  let t := (if 0 <=? s then m * 2 ^ s else m / 2 ^ (- s))%Z in
  fold_left (fun y _ => (y * y / 2 ^ libm_bits)%Z)
            (seq 0 (Z.to_nat j)) (exp_series t).

Definition float_exp (x : float) : float :=
  match Prim2SF x with
  | S754_nan => nan
  | S754_infinity false => infinity
  | S754_infinity true => 0%float
  | S754_zero _ => 1%float
  | S754_finite s m e =>
      if (10 <=? Z.log2 (Zpos m) + e)%Z
      then (if s then 0%float else infinity)
      else
        let y := exp_fixed (Zpos m) e in
        if s then round_ratio (2 ^ libm_bits) y
        else round_ratio y (2 ^ libm_bits)
  end.

(** [atanh(z / 2^libm_bits) * 2^libm_bits] for [0 <= z <= 2^libm_bits / 3],
    by its series. *)
Definition atanh_series (z : Z) : Z :=
  let one := (2 ^ libm_bits)%Z in
  let z2 := (z * z / one)%Z in
  fst (fold_left (fun st i =>
                    let power := (snd st * z2 / one)%Z in
                    ((fst st + power / (2 * Z.of_nat i + 1))%Z, power))
                 (seq 1 90) (z, z)).

Definition ln2_fixed : Z := (2 * atanh_series (2 ^ libm_bits / 3))%Z.

(** [ln(m * 2^e) * 2^libm_bits] for [0 < m]: the argument is written
    [2^k * t] with [2/3 < t <= 4/3] and [ln t = 2 * atanh((t - 1) / (t + 1))]. *)
Definition log_fixed (m e : Z) : Z :=
  let b := Z.log2 m in
  let up := (4 * 2 ^ b <? 3 * m)%Z in
  let D := (if up then 2 ^ (b + 1) else 2 ^ b)%Z in
  let k := (if up then b + e + 1 else b + e)%Z in
  let z := (Z.abs (m - D) * 2 ^ libm_bits / (m + D))%Z in
  (k * ln2_fixed + Z.sgn (m - D) * (2 * atanh_series z))%Z.

Definition float_log (x : float) : float :=
  match Prim2SF x with
  | S754_nan => nan
  | S754_infinity false => infinity
  | S754_infinity true => nan
  | S754_zero _ => neg_infinity
  | S754_finite true _ _ => nan
  | S754_finite false m e =>
      let L := log_fixed (Zpos m) e in
      if (L =? 0)%Z then 0%float
      else if (0 <? L)%Z then round_ratio L (2 ^ libm_bits)
      else (- round_ratio (- L) (2 ^ libm_bits))%float
  end.

#[export] Instance float_Transcendental : Transcendental float := {|
  np_exp := float_exp;
  np_log := float_log
|}.

(** In binary64, [k] copies of [a] average to [a] itself and [a] is finite
    ([a - a] is 0, not [nan]). *)
Definition averages_exactly (k : nat) (a : float) : Prop :=
  np_average (repeat a k) = a /\ (a - a)%float = 0%float.

(** The constraint set of a scenario, over the reals: the hypercube
    [-1, 1]^n at 1, the unit ball at 2, and no constraint elsewhere. *)
Definition in_domain (scenario : Z) (v : list R) : Prop :=
  if (scenario =? 1)%Z then Forall (fun c => (-1 <= c <= 1)%R) v
  else if (scenario =? 2)%Z then (norm v <= 1)%R
  else True.

(** A label of the data distribution. *)
Definition is_label (y : Z) : Prop := y = 1%Z \/ y = (-1)%Z.

(** A deterministic stand-in for the generator, on which the model can be
    run: its state counts the draws, [random.sample] returns the last [k]
    elements of the population and [random.gauss] returns the mean. *)
Definition counting_generator {num : Type} : Random num nat := {|
  random_sample := fun population k g => (firstn k (rev population), S g);
  random_gauss := fun mu sigma g => (mu, S g)
|}.

(** What Python documents of [random.sample(population, k)] for
    [k <= len(population)]: the result has [k] elements, all taken from the
    population. *)
Definition random_sample_sound {num rng : Type} (RG : Random num rng) : Prop :=
  forall (population : list Z) (k : nat) (g : rng),
    (k <= length population)%nat ->
    length (fst (random_sample population k g)) = k
    /\ incl (fst (random_sample population k g)) population.

(** [random.gauss(mu, 0)] returns [mu]: with a standard deviation of 0 the
    Gaussian is concentrated on its mean. *)
Definition random_gauss_degenerate {rng : Type} (RG : Random R rng) : Prop :=
  forall (mu : R) (g : rng), fst (random_gauss mu 0%R g) = mu.

(** * Properties *)

(** ** Loops over the indices of a list *)

Section IndexLoops.

Context {A : Type}.

Lemma list_set_length (l : list A) (i : nat) (a : A) :
  length (list_set l i a) = length l.
Proof.
  revert i; induction l as [|h t IH]; intros [|i]; simpl; auto.
Qed.

Lemma list_set_middle (pre suf : list A) (a b : A) :
  list_set (pre ++ a :: suf) (length pre) b = pre ++ b :: suf.
Proof.
  induction pre as [|h t IH]; simpl; [reflexivity | now rewrite IH].
Qed.

Lemma snoc_app (pre suf : list A) (a : A) :
  pre ++ a :: suf = (pre ++ [a]) ++ suf.
Proof. now rewrite <- app_assoc. Qed.

Lemma length_snoc (pre : list A) (a : A) :
  length (pre ++ [a]) = S (length pre).
Proof. rewrite length_app; simpl; lia. Qed.

(** A loop [for i in range(len(u)): u[i] = f(u[i])] is [map f]. *)
Lemma index_loop_map (f : A -> A) (g : list A -> nat -> list A) :
  (forall pre a suf, g (pre ++ a :: suf) (length pre) = pre ++ f a :: suf) ->
  forall u, fold_left g (seq 0 (length u)) u = map f u.
Proof.
  intros Hg u.
  enough (G : forall suf pre,
             fold_left g (seq (length pre) (length suf)) (pre ++ suf)
             = pre ++ map f suf) by apply (G u []).
  induction suf as [|a t IH]; intros pre; simpl.
  - reflexivity.
  - rewrite Hg, (snoc_app pre t), <- length_snoc with (a := f a), IH.
    now rewrite <- app_assoc.
Qed.

(** A loop [for i in range(len(v)): s = h(s, v[i])] is a fold over [v]. *)
Lemma index_loop_fold {B : Type} (h : B -> A -> B) (d : A) (v : list A) (b : B) :
  fold_left (fun s i => h s (nth i v d)) (seq 0 (length v)) b = fold_left h v b.
Proof.
  enough (G : forall suf pre b,
             fold_left (fun s i => h s (nth i (pre ++ suf) d))
                       (seq (length pre) (length suf)) b
             = fold_left h suf b) by apply (G v []).
  induction suf as [|a t IH]; intros pre c; simpl.
  - reflexivity.
  - rewrite nth_middle, (snoc_app pre t), <- length_snoc with (a := a).
    apply IH.
Qed.

Lemma nth_map_seq (f : nat -> A) (n j : nat) (d : A) :
  (j < n)%nat -> nth j (map f (seq 0 n)) d = f j.
Proof.
  intros Hj.
  rewrite (nth_indep _ d (f O)) by (now rewrite length_map, length_seq).
  now rewrite (map_nth f (seq 0 n) O j), seq_nth.
Qed.

End IndexLoops.

Section GeometryFacts.

Context {num : Type} {AR : Arith num}.
Local Open Scope num_scope.

Lemma norm_sum_squares (vector : list num) :
  norm vector = np_sqrt (sum_squares vector).
Proof.
  unfold norm, sum_squares; f_equal.
  apply (index_loop_fold (fun sum c => sum + c * c)).
Qed.

Lemma project_hypercube (u_vector : list num) :
  project 1 u_vector = map clamp u_vector.
Proof.
  unfold project; simpl.
  apply index_loop_map; intros pre a suf.
  rewrite nth_middle; unfold clamp.
  destruct (a >? #1); [apply list_set_middle|].
  destruct (a <? #(-1)); [apply list_set_middle | reflexivity].
Qed.

Lemma project_ball (u_vector : list num) :
  project 2 u_vector =
  if norm u_vector >? #1
  then map (fun c => c / norm u_vector) u_vector
  else u_vector.
Proof.
  unfold project; simpl.
  destruct (norm u_vector >? #1); [|reflexivity].
  apply index_loop_map; intros pre a suf.
  now rewrite nth_middle, list_set_middle.
Qed.

(** On the ball a second projection changes nothing as soon as the computed
    norm of the first one does not exceed 1. *)
Lemma project_ball_stable (u_vector : list num) :
  (norm (project 2 u_vector) >? #1) = false ->
  project 2 (project 2 u_vector) = project 2 u_vector.
Proof. intros E; now rewrite (project_ball (project 2 u_vector)), E. Qed.

Lemma binary_loss_bit (w x : list num) (y : Z) :
  binary_loss w x y = 0%Z \/ binary_loss w x y = 1%Z.
Proof. unfold binary_loss; destruct (_ !=? _); [now right | now left]. Qed.

Lemma project_other (scenario : Z) (u_vector : list num) :
  scenario <> 1%Z -> scenario <> 2%Z -> project scenario u_vector = u_vector.
Proof.
  intros H1 H2; unfold project.
  destruct (Z.eqb_spec scenario 1); [contradiction|].
  destruct (Z.eqb_spec scenario 2); [contradiction|reflexivity].
Qed.

Lemma project_length (scenario : Z) (u_vector : list num) :
  length (project scenario u_vector) = length u_vector.
Proof.
  destruct (Z.eq_dec scenario 1) as [->|H1];
    [now rewrite project_hypercube, length_map|].
  destruct (Z.eq_dec scenario 2) as [->|H2];
    [|now rewrite project_other].
  rewrite project_ball.
  destruct (norm u_vector >? #1); [apply length_map | reflexivity].
Qed.

End GeometryFacts.

(** ** Exact arithmetic *)

Ltac real_arith :=
  cbn [num_of_Z num_add num_sub num_mul num_div num_opp num_gtb num_ltb
       num_neqb np_sqrt np_exp np_log R_Arith R_Transcendental] in *.

Section ExactGeometry.

Local Open Scope R_scope.

Lemma clamp_R_range (c : R) : -1 <= clamp c <= 1.
Proof.
  unfold clamp; real_arith.
  destruct (Rgt_dec c 1); [lra|].
  destruct (Rlt_dec c (-1)); lra.
Qed.

Lemma clamp_R_fixed (c : R) : -1 <= c <= 1 -> clamp c = c.
Proof.
  intros Hc; unfold clamp; real_arith.
  destruct (Rgt_dec c 1); [lra|].
  destruct (Rlt_dec c (-1)); [lra | reflexivity].
Qed.

Lemma sum_squares_acc (v : list R) (a : R) :
  fold_left (fun sum c => (sum + c * c)%num) v a = a + sum_squares v.
Proof.
  unfold sum_squares; revert a; induction v as [|c v IH]; intros a;
    cbn [fold_left].
  - real_arith; lra.
  - rewrite (IH (a + c * c)%num), (IH (#0 + c * c)%num); real_arith; lra.
Qed.

Lemma sum_squares_cons (c : R) (v : list R) :
  sum_squares (c :: v) = c * c + sum_squares v.
Proof.
  unfold sum_squares at 1; simpl; rewrite sum_squares_acc; real_arith; lra.
Qed.

Lemma sum_squares_nonneg (v : list R) : 0 <= sum_squares v.
Proof.
  induction v as [|c v IH].
  - unfold sum_squares; simpl; real_arith; lra.
  - rewrite sum_squares_cons; nra.
Qed.

Lemma sum_squares_scale (n : R) (v : list R) :
  n <> 0 ->
  sum_squares (map (fun c => (c / n)%num) v) = sum_squares v / (n * n).
Proof.
  intros Hn; induction v as [|c v IH].
  - unfold sum_squares; simpl; real_arith; field; exact Hn.
  - cbn [map]; rewrite !sum_squares_cons, IH; real_arith; field; exact Hn.
Qed.

Lemma sum_squares_zeros (n : nat) : sum_squares (np_zeros n : list R) = 0.
Proof.
  induction n as [|n IH].
  - unfold sum_squares; simpl; real_arith; lra.
  - unfold np_zeros in *; cbn [repeat]; rewrite sum_squares_cons, IH.
    real_arith; lra.
Qed.

(** Past the unit ball, the projected vector has norm exactly one. *)
Lemma norm_rescaled (v : list R) :
  norm v > 1 -> norm (map (fun c => (c / norm v)%num) v) = 1.
Proof.
  intros Hn.
  rewrite (norm_sum_squares (map _ v)), sum_squares_scale by lra.
  rewrite norm_sum_squares in *; real_arith.
  rewrite sqrt_sqrt by apply sum_squares_nonneg.
  assert (Hs : sum_squares v <> 0).
  { intros E; rewrite E, sqrt_0 in Hn; lra. }
  replace (sum_squares v / sum_squares v) with 1 by (field; exact Hs).
  apply sqrt_1.
Qed.

Lemma project_ball_R (v : list R) :
  project 2 v = if Rgt_dec (norm v) 1
                then map (fun c => (c / norm v)%num) v else v.
Proof. rewrite project_ball; real_arith; now destruct (Rgt_dec (norm v) 1). Qed.

Lemma norm_project_ball (v : list R) : norm (project 2 v) <= 1.
Proof.
  rewrite project_ball_R; destruct (Rgt_dec (norm v) 1) as [Hn|Hn].
  - rewrite norm_rescaled by exact Hn; lra.
  - lra.
Qed.

Lemma idempotent_over_R (scenario : Z) (v : list R) :
  project scenario (project scenario v) = project scenario v.
Proof.
  destruct (Z.eq_dec scenario 1) as [->|H1].
  { rewrite !project_hypercube, map_map; apply map_ext; intros c.
    apply clamp_R_fixed, clamp_R_range. }
  destruct (Z.eq_dec scenario 2) as [->|H2]; [|now rewrite !project_other].
  rewrite (project_ball_R (project 2 v)).
  destruct (Rgt_dec (norm (project 2 v)) 1) as [Hn|Hn]; [|reflexivity].
  pose proof (norm_project_ball v); lra.
Qed.

End ExactGeometry.

(** ** Binary64 arithmetic *)

Section Binary64Geometry.

Lemma clamp_float_unfold (c : float) :
  clamp c = if PrimFloat.ltb 1 c then 1%float
            else if PrimFloat.ltb c (-1) then (-1)%float else c.
Proof. reflexivity. Qed.

Lemma clamp_float_idempotent (c : float) : clamp (clamp c) = clamp c.
Proof.
  rewrite (clamp_float_unfold c).
  destruct (PrimFloat.ltb 1 c) eqn:E1; [reflexivity|].
  destruct (PrimFloat.ltb c (-1)) eqn:E2; [reflexivity|].
  now rewrite clamp_float_unfold, E1, E2.
Qed.

Lemma project_hypercube_idempotent_float (v : list float) :
  project 1 (project 1 v) = project 1 v.
Proof.
  rewrite !project_hypercube, map_map; apply map_ext, clamp_float_idempotent.
Qed.

End Binary64Geometry.

(** The script's functions, run in binary64. *)
Example project_hypercube_run :
  project 1 [19; -29; 0.5; 0; -1]%float = [1; -1; 0.5; 0; -1]%float.
Proof. reflexivity. Qed.

Example project_ball_run :
  project 2 [3; 4; 0; 0; 0]%float = [3 / 5; 4 / 5; 0; 0; 0]%float
  /\ project 2 [0.5; 0.5; 0; 0; 0]%float = [0.5; 0.5; 0; 0; 0]%float.
Proof. split; reflexivity. Qed.

Example norm_run : norm [3; 4; 0; 0; 12]%float = 13%float.
Proof. reflexivity. Qed.

Example binary_loss_run :
  binary_loss [0.5; -1]%float [2; 1]%float 1 = 1%Z
  /\ binary_loss [0.5; -1]%float [2; 1]%float (-1) = 1%Z
  /\ binary_loss [0.5; -1]%float [4; 1]%float 1 = 0%Z.
Proof. repeat split; reflexivity. Qed.

Example sgd_M_run :
  sgd_M 1 = (2 * PrimFloat.sqrt 6)%float /\ sgd_M 2 = 2%float
  /\ sgd_rho 2 = 1%float.
Proof. repeat split; reflexivity. Qed.

(** ** The claims on projection *)

(** C3 (as stated, refuted): in binary64, the arithmetic the script runs on,
    projecting [19, 29, 0, 0, 0] on the ball twice does not give what
    projecting it once gives: the normalised vector has a computed norm of
    1 + 2^-52, so the second call divides it again. *)
Lemma project_ball_twice_binary64 :
  project 2 (project 2 [19; 29; 0; 0; 0]%float)
  <> project 2 [19; 29; 0; 0; 0]%float.
Proof.
  intros E.
  apply (f_equal (fun l => PrimFloat.eqb (nth 0 l 0%float)
                             (nth 0 (project 2 [19; 29; 0; 0; 0]%float) 0%float))) in E.
  vm_compute in E; discriminate E.
Qed.

(** C3 (amended): with exact real arithmetic [project] is idempotent at
    every scenario value and every vector; with binary64 arithmetic the
    hypercube projection is idempotent on every vector of floats, and the
    ball projection is idempotent at the vectors whose projection has a
    computed norm that does not exceed 1. *)
Theorem project_idempotent :
  (forall (scenario : Z) (v : list R),
      project scenario (project scenario v) = project scenario v) /\
  (forall v : list float, project 1 (project 1 v) = project 1 v) /\
  (forall v : list float,
      (norm (project 2 v) >? #1)%num = false ->
      project 2 (project 2 v) = project 2 v).
Proof.
  split; [exact idempotent_over_R|].
  split; [exact project_hypercube_idempotent_float|].
  intros v; apply project_ball_stable.
Qed.

(** C3 (amended), at [3, 4, 0, 0, 0], whose projection has the computed
    norm 1. *)
Lemma project_idempotent_witness :
  project 2 (project 2 [3; 4; 0; 0; 0]%float) = project 2 [3; 4; 0; 0; 0]%float.
Proof.
  apply (proj2 (proj2 project_idempotent) [3; 4; 0; 0; 0]%float).
  vm_compute; reflexivity.
Defined.

(** C4: over the reals, every coordinate of the hypercube projection lies in
    [-1, 1], the ball projection has Euclidean norm at most 1, and both
    rules map the zero vector (of any dimension) to itself. *)
Theorem project_within_domain :
  (forall v : list R, Forall (fun c => (-1 <= c <= 1)%R) (project 1 v)) /\
  (forall v : list R, (norm (project 2 v) <= 1)%R) /\
  (forall n : nat, project 1 (np_zeros n : list R) = np_zeros n
                   /\ project 2 (np_zeros n : list R) = np_zeros n).
Proof.
  split; [|split].
  - intros v; rewrite project_hypercube; apply Forall_forall.
    intros c Hc; apply in_map_iff in Hc; destruct Hc as [a [<- _]].
    apply clamp_R_range.
  - exact norm_project_ball.
  - intros n; split.
    + rewrite project_hypercube; unfold np_zeros; rewrite map_repeat.
      f_equal; apply clamp_R_fixed; real_arith; lra.
    + rewrite project_ball_R.
      destruct (Rgt_dec (norm (np_zeros n)) 1) as [Hn|Hn]; [|reflexivity].
      rewrite norm_sum_squares, sum_squares_zeros in Hn; real_arith.
      rewrite sqrt_0 in Hn; lra.
Qed.

(** ** Sampling and training *)

Section LearningFacts.

Context {num rng : Type} {AR : Arith num} {TR : Transcendental num}
        {RG : Random num rng}.
Local Open Scope num_scope.

Lemma replicateM_length (A : Type) (n : nat) (m : State rng A) (g : rng) :
  length (fst (replicateM n m g)) = n.
Proof.
  revert g; induction n as [|n IH]; intros g; cbn [replicateM]; [reflexivity|].
  unfold bind, ret; destruct (m g) as [a g1].
  specialize (IH g1); destruct (replicateM n m g1) as [l g2]; simpl in *.
  now rewrite IH.
Qed.

Lemma get_Sample_Point_length (scenario : Z) (sigma : num) (g : rng) :
  length (fst (fst (get_Sample_Point scenario sigma g))) = (inputDimension + 1)%nat.
Proof.
  unfold get_Sample_Point, bind, ret.
  destruct (random_sample _ _ g) as [l g1].
  set (m := if (nth 0 l 0 =? -1)%Z then _ else _).
  assert (Hm : length (fst (m g1)) = inputDimension).
  { subst m; destruct (nth 0 l 0 =? -1)%Z; apply replicateM_length. }
  destruct (m g1) as [u g2]; cbn [fst] in *.
  now rewrite length_app, project_length, Hm.
Qed.

Lemma sgd_step_length (scenario : Z) (sigma lr : num) (W : list num) (g : rng) :
  length W = (inputDimension + 1)%nat ->
  length (fst (sgd_step scenario sigma lr W g)) = (inputDimension + 1)%nat.
Proof.
  intros HW; unfold sgd_step, bind, ret.
  pose proof (get_Sample_Point_length scenario sigma g) as HX.
  destruct (get_Sample_Point scenario sigma g) as [[X y] g1]; cbn [fst] in *.
  rewrite project_length; unfold np_sub, logistic_loss_gradient, np_scale.
  rewrite length_map, length_combine, !length_map, HW, HX; apply Nat.min_id.
Qed.

Lemma sgd_iterates_length (n : nat) (scenario : Z) (sigma lr : num)
    (W : list num) (g : rng) :
  length (fst (sgd_iterates n scenario sigma lr W g)) = n.
Proof.
  revert W g; induction n as [|n IH]; intros W g; cbn [sgd_iterates];
    [reflexivity|].
  unfold bind, ret; destruct (sgd_step scenario sigma lr W g) as [W1 g1].
  specialize (IH W1 g1); destruct (sgd_iterates n _ _ _ W1 g1) as [its g2].
  cbn [fst length] in *; now rewrite IH.
Qed.

Lemma sgd_iterates_dimension (n : nat) (scenario : Z) (sigma lr : num)
    (W : list num) (g : rng) :
  length W = (inputDimension + 1)%nat ->
  Forall (fun W' => length W' = (inputDimension + 1)%nat)
         (fst (sgd_iterates n scenario sigma lr W g)).
Proof.
  revert W g; induction n as [|n IH]; intros W g HW;
    cbn [sgd_iterates]; [constructor|].
  unfold bind, ret.
  pose proof (sgd_step_length scenario sigma lr W g HW) as H1.
  destruct (sgd_step scenario sigma lr W g) as [W1 g1]; cbn [fst] in H1.
  specialize (IH W1 g1 H1); destruct (sgd_iterates n _ _ _ W1 g1) as [its g2].
  cbn [fst] in *; now constructor.
Qed.

(** Every weight vector of the run comes from the one before it by one
    pass of the loop body, with the one learning rate [lr]. *)
Lemma sgd_iterates_step (n : nat) (scenario : Z) (sigma lr : num) :
  forall (W : list num) (g : rng) (k : nat),
    (k < n)%nat ->
    exists g_k : rng,
      nth k (fst (sgd_iterates n scenario sigma lr W g)) []
      = fst (sgd_step scenario sigma lr
               (nth k (W :: fst (sgd_iterates n scenario sigma lr W g)) []) g_k).
Proof.
  induction n as [|n IH]; intros W g k Hk; [lia|].
  cbn [sgd_iterates]; unfold bind, ret.
  destruct (sgd_step scenario sigma lr W g) as [W1 g1] eqn:E1.
  specialize (IH W1 g1); destruct (sgd_iterates n _ _ _ W1 g1) as [its g2].
  cbn [fst] in *; destruct k as [|k].
  - exists g; cbn [nth]; now rewrite E1.
  - destruct (IH k ltac:(lia)) as [g_k Hg]; exists g_k; exact Hg.
Qed.

Lemma sgd_loop_iterates (n : nat) (scenario : Z) (sigma lr : num) :
  forall (W : list num) (W_list : list (list num)) (g : rng),
    (let r := sgd_loop n scenario sigma lr W W_list g in (snd (fst r), snd r))
    = (let r := sgd_iterates n scenario sigma lr W g in
       (W_list ++ fst r, snd r)).
Proof.
  induction n as [|n IH]; intros W W_list g;
    cbn [sgd_loop sgd_iterates]; unfold bind, ret.
  - cbn; now rewrite app_nil_r.
  - destruct (sgd_step scenario sigma lr W g) as [W1 g1].
    cbv zeta in IH |- *; rewrite IH.
    destruct (sgd_iterates n _ _ _ W1 g1) as [its g2]; cbn [fst snd].
    now rewrite <- app_assoc.
Qed.

Lemma sgd_W_list_iterates (N scenario : Z) (sigma : num) (g : rng) :
  sgd_W_list N scenario sigma g
  = (let r := sgd_iterates (Z.to_nat (N - 1)) scenario sigma
                (learning_rate N scenario) (np_zeros (inputDimension + 1)) g in
     (np_zeros (inputDimension + 1) :: fst r, snd r)).
Proof.
  unfold sgd_W_list, bind, ret.
  pose proof (sgd_loop_iterates (Z.to_nat (N - 1)) scenario sigma
                (learning_rate N scenario) (np_zeros (inputDimension + 1))
                [np_zeros (inputDimension + 1)] g) as E.
  cbv zeta in E |- *.
  destruct (sgd_loop _ _ _ _ _ _ g) as [[W L] g1]; cbn [fst snd] in E.
  exact E.
Qed.

Lemma sgd_average (N scenario : Z) (sigma : num) (g : rng) :
  sgd N scenario sigma g
  = (np_average_axis0 (fst (sgd_W_list N scenario sigma g)),
     snd (sgd_W_list N scenario sigma g)).
Proof.
  unfold sgd, bind, ret.
  now destruct (sgd_W_list N scenario sigma g).
Qed.

(** C10: at a scenario value other than 1 and 2, [project] returns its
    argument unchanged (in every arithmetic; the model is total, no error is
    raised), so the sampler returns the raw Gaussian vector with the bias
    coordinate appended and a training step is the plain gradient step. *)
Theorem project_disabled_outside_scenarios (scenario : Z) :
  scenario <> 1%Z -> scenario <> 2%Z ->
  (forall u_vector : list num, project scenario u_vector = u_vector) /\
  (forall (sigma : num) (g : rng),
      get_Sample_Point scenario sigma g
      = (let (l, g1) := random_sample [(-1)%Z; 1%Z] 1 g in
         let y := nth 0 l 0%Z in
         let (u_vector, g2) :=
           (if (y =? -1)%Z
            then replicateM inputDimension (random_gauss negativeCenter sigma)
            else replicateM inputDimension (random_gauss positiveCenter sigma))
             g1 in
         (u_vector ++ [#1], y, g2))) /\
  (forall (sigma lr : num) (W : list num) (g : rng),
      sgd_step scenario sigma lr W g
      = (let '(X, y, g1) := get_Sample_Point scenario sigma g in
         (np_sub W (np_scale lr (logistic_loss_gradient W X y)), g1))).
Proof.
  intros H1 H2; split; [|split].
  - intros u_vector; now apply project_other.
  - intros sigma g; unfold get_Sample_Point, bind, ret.
    destruct (random_sample _ _ g) as [l g1].
    match goal with
    | |- context [(if ?c then ?a else ?b) g1] =>
        destruct ((if c then a else b) g1) as [u_vector g2]
    end.
    now rewrite project_other.
  - intros sigma lr W g; unfold sgd_step, bind, ret.
    destruct (get_Sample_Point scenario sigma g) as [[X y] g1].
    now rewrite project_other.
Qed.

(** C1: for [N >= 1] the list [W_list] holds exactly [N] weight vectors, the
    zero vector of dimension D+1 followed by the result of every pass of the
    loop; every entry has dimension D+1; and [sgd] returns the average of
    [W_list] along axis 0, a vector of dimension D+1 whose coordinate [j] is
    the sum of the coordinates [j] of all [N] entries divided by [N]. *)
Theorem sgd_returns_trajectory_average
    (N scenario : Z) (sigma : num) (g : rng) :
  (1 <= N)%Z ->
  let W_list := fst (sgd_W_list N scenario sigma g) in
  length W_list = Z.to_nat N /\
  W_list = np_zeros (inputDimension + 1)
           :: fst (sgd_iterates (Z.to_nat (N - 1)) scenario sigma
                     (learning_rate N scenario)
                     (np_zeros (inputDimension + 1)) g) /\
  Forall (fun W => length W = (inputDimension + 1)%nat) W_list /\
  fst (sgd N scenario sigma g) = np_average_axis0 W_list /\
  length (fst (sgd N scenario sigma g)) = (inputDimension + 1)%nat /\
  (forall j : nat, (j < inputDimension + 1)%nat ->
     nth j (fst (sgd N scenario sigma g)) #0
     = np_sum (map (fun W => nth j W #0) W_list) / #N).
Proof.
  intros HN W_list; subst W_list.
  rewrite sgd_average, sgd_W_list_iterates; cbv zeta; cbn [fst].
  set (its := sgd_iterates _ _ _ _ _ g).
  assert (Hlen : length (np_zeros (inputDimension + 1) :: fst its) = Z.to_nat N).
  { cbn [length]; subst its; rewrite sgd_iterates_length; lia. }
  split; [exact Hlen|]; split; [reflexivity|]; split;
    [|split; [reflexivity|split]].
  - constructor; [apply repeat_length|].
    apply sgd_iterates_dimension, repeat_length.
  - unfold np_average_axis0, np_zeros; cbn [hd].
    now rewrite length_map, length_seq, repeat_length.
  - intros j Hj; unfold np_average_axis0; cbn [hd].
    unfold np_zeros at 2; rewrite repeat_length.
    rewrite nth_map_seq by exact Hj.
    unfold np_average; rewrite length_map, Hlen, Z2Nat.id by lia.
    reflexivity.
Qed.

End LearningFacts.

(** C1, run on the counting generator: three iterations on the ball. *)
Lemma sgd_returns_trajectory_average_witness :
  (1 <= 3)%Z /\
  length (fst (sgd_W_list (RG := counting_generator) 3 2 0%R O)) = 3%nat.
Proof.
  split; [lia|].
  exact (proj1 (sgd_returns_trajectory_average
                  (RG := counting_generator) 3 2 0%R O ltac:(lia))).
Defined.

(** C10, at the scenario value 3. *)
Lemma project_disabled_outside_scenarios_witness :
  (3 <> 1)%Z /\ (3 <> 2)%Z /\ project 3 [5; -7; 0]%R = [5; -7; 0]%R.
Proof.
  split; [lia|]; split; [lia|].
  exact (proj1 (project_disabled_outside_scenarios
                  (num := R) (RG := counting_generator) 3
                  ltac:(lia) ltac:(lia)) [5; -7; 0]%R).
Defined.

(** ** Training, over the reals *)

Section ExactLearning.

Context {rng : Type} {RG : Random R rng}.
Local Open Scope R_scope.

(** C6: the step size is [M / (rho * sqrt(iterations))] with [rho = M / 2],
    [M = 2 * sqrt(D + 1)] on the hypercube and [M = 2] on the ball; [W_list]
    is the zero vector followed by the passes of the loop run with that one
    value: every entry after the first is one pass of the loop body from the
    entry before it, at that same step size. *)
Theorem learning_rate_fixed (N scenario : Z) (sigma : R) (g : rng) :
  learning_rate N scenario
  = sgd_M scenario / (sgd_rho scenario * sqrt (IZR N)) /\
  sgd_rho scenario = sgd_M scenario / 2 /\
  sgd_M 1 = 2 * sqrt (INR inputDimension + 1) /\
  sgd_M 2 = 2 /\
  fst (sgd_W_list N scenario sigma g)
  = np_zeros (inputDimension + 1)
    :: fst (sgd_iterates (Z.to_nat (N - 1)) scenario sigma
              (learning_rate N scenario) (np_zeros (inputDimension + 1)) g) /\
  (forall k : nat,
      (k < Z.to_nat (N - 1))%nat ->
      exists g_k : rng,
        nth (S k) (fst (sgd_W_list N scenario sigma g)) []
        = fst (sgd_step scenario sigma (learning_rate N scenario)
                 (nth k (fst (sgd_W_list N scenario sigma g)) []) g_k)).
Proof.
  split; [reflexivity|]; split; [reflexivity|]; split; [|split; [reflexivity|]];
    [|split; [|intros k Hk; rewrite sgd_W_list_iterates; cbv zeta; cbn [fst];
               apply (sgd_iterates_step _ _ _ _ _ _ _ Hk)]].
  - unfold sgd_M; cbn [Z.eqb Pos.eqb]; real_arith.
    change (2 ^ 2 * (Z.of_nat inputDimension + 1))%Z with 24%Z.
    replace (INR inputDimension + 1) with 6 by (unfold inputDimension; simpl; lra).
    replace 24 with ((2 * 2) * 6) by lra.
    rewrite sqrt_mult, sqrt_square by lra; reflexivity.
  - now rewrite sgd_W_list_iterates.
Qed.

(** C7: with one iteration the loop body never runs, at any scenario and
    sigma: [W_list] is the zero vector alone, no sample is drawn, and the
    predictor returned is the zero vector of dimension D+1. *)
Theorem sgd_single_iteration (scenario : Z) (sigma : R) (g : rng) :
  sgd_W_list 1 scenario sigma g = ([np_zeros (inputDimension + 1)], g) /\
  sgd 1 scenario sigma g = (np_zeros (inputDimension + 1), g).
Proof.
  assert (E : sgd_W_list 1 scenario sigma g
              = ([np_zeros (inputDimension + 1)], g)) by reflexivity.
  split; [exact E|].
  rewrite sgd_average, E; cbn [fst snd]; f_equal.
  unfold np_average_axis0, np_average, np_sum, np_zeros, inputDimension.
  cbn [hd length repeat Nat.add seq map nth fold_left Z.of_nat Pos.of_succ_nat].
  real_arith.
  repeat (f_equal; try lra).
Qed.

End ExactLearning.

(** C6, on three iterations on the ball with the counting generator. *)
Lemma learning_rate_fixed_witness :
  exists g_k : nat,
    nth 1 (fst (sgd_W_list (RG := counting_generator) 3 2 0%R O)) []
    = fst (sgd_step (RG := counting_generator) 2 0%R (learning_rate 3 2)
             (nth 0 (fst (sgd_W_list (RG := counting_generator) 3 2 0%R O)) [])
             g_k).
Proof.
  refine (proj2 (proj2 (proj2 (proj2 (proj2
    (learning_rate_fixed (RG := counting_generator) 3 2 0%R O))))) O _).
  vm_compute; lia.
Defined.

(** ** Losses, over the reals *)

Section ExactLosses.

Local Open Scope R_scope.

Lemma np_sign_R (d : R) :
  np_sign d = if Rlt_dec d 0 then -1 else if Rgt_dec d 0 then 1 else 0.
Proof.
  unfold np_sign; real_arith.
  destruct (Rlt_dec d 0); [reflexivity|].
  destruct (Rgt_dec d 0); [reflexivity|].
  destruct (Req_dec_T d 0); [reflexivity | lra].
Qed.

Lemma binary_loss_R (w x : list R) (y : Z) :
  binary_loss w x y = if Req_dec_T (np_sign (np_dot w x)) (IZR y) then 0%Z else 1%Z.
Proof.
  unfold binary_loss; real_arith.
  now destruct (Req_dec_T (np_sign (np_dot w x)) (IZR y)).
Qed.

(** C5: for a label in {-1, +1} the binary loss is 0 or 1; it is 1 exactly
    when the sign of the dot product differs from the label; a dot product
    of 0 has sign 0 and so gives loss 1 for both labels; the loss is 0
    exactly when the dot product is strictly on the side of the label. *)
Theorem binary_loss_zero_one (w x : list R) (y : Z) :
  y = 1%Z \/ y = (-1)%Z ->
  (binary_loss w x y = 0%Z \/ binary_loss w x y = 1%Z) /\
  (binary_loss w x y = 1%Z <-> np_sign (np_dot w x) <> IZR y) /\
  (np_dot w x = 0 -> binary_loss w x y = 1%Z) /\
  (binary_loss w x y = 0%Z <->
   (np_dot w x > 0 /\ y = 1%Z) \/ (np_dot w x < 0 /\ y = (-1)%Z)).
Proof.
  intros Hy; rewrite binary_loss_R, np_sign_R.
  set (d := np_dot w x).
  destruct (Req_dec_T _ (IZR y)) as [E|E]; revert E;
    destruct (Rlt_dec d 0) as [Hlt|Hlt];
    [|destruct (Rgt_dec d 0) as [Hgt|Hgt]| |destruct (Rgt_dec d 0) as [Hgt|Hgt]];
    intros E; destruct Hy as [-> | ->]; cbn [IZR IPR] in E;
    repeat split; intros; try tauto; try lia; try lra;
    solve [ left; split; [lra | reflexivity]
          | right; split; [lra | reflexivity]
          | exfalso; lra
          | match goal with
            | X : _ \/ _ |- _ => destruct X as [[? X]|[? X]]; try lra; try lia
            end ].
Qed.

(** C5, on the one-dimensional input 1 with weight 1 and label 1. *)
Lemma binary_loss_zero_one_witness :
  (1 = 1 \/ 1 = -1)%Z /\
  (binary_loss [1] [1] 1 = 0%Z \/ binary_loss [1] [1] 1 = 1%Z).
Proof.
  split; [left; reflexivity|].
  exact (proj1 (binary_loss_zero_one [1] [1] 1 (or_introl eq_refl))).
Defined.

End ExactLosses.

(** ** The risk estimator *)

(** In every arithmetic, the last field of [computeLosses] is [np.std] of
    the list of average binary losses. *)
Lemma computeLosses_std_binary_err
    {num : Type} {AR : Arith num} {TR : Transcendental num}
    (W_hat_list : list (list num)) (test_dataset : list (list num * Z)) :
  std_binary_err (computeLosses W_hat_list test_dataset)
  = np_std (binary_loss_estimates W_hat_list test_dataset).
Proof. reflexivity. Qed.

Section ExactRisk.

Local Open Scope R_scope.

Lemma np_sum_acc (l : list R) (a : R) : fold_left num_add l a = a + np_sum l.
Proof.
  unfold np_sum; revert a; induction l as [|x l IH]; intros a; cbn [fold_left].
  - real_arith; lra.
  - rewrite (IH (a + x)%num), (IH (#0 + x)%num); real_arith; lra.
Qed.

Lemma np_sum_cons (x : R) (l : list R) : np_sum (x :: l) = x + np_sum l.
Proof.
  unfold np_sum at 1; cbn [fold_left]; rewrite np_sum_acc; real_arith; lra.
Qed.

Lemma np_sum_nil : np_sum ([] : list R) = 0.
Proof. reflexivity. Qed.

Lemma length_positive {A : Type} (l : list A) :
  l <> [] -> 0 < IZR (Z.of_nat (length l)).
Proof.
  intros Hl; apply IZR_lt; destruct l; [contradiction | cbn [length]; lia].
Qed.

Lemma running_min_le_start (t : list R) (a : R) : running_min t a <= a.
Proof.
  unfold running_min; revert a; induction t as [|b t IH]; intros a;
    cbn [fold_left]; [lra|].
  eapply Rle_trans; [apply IH|]; real_arith.
  destruct (Rlt_dec b a); lra.
Qed.

Lemma running_min_le_in (t : list R) (a x : R) :
  In x t -> running_min t a <= x.
Proof.
  revert a; induction t as [|b t IH]; intros a Hx; [destruct Hx|].
  destruct Hx as [->|Hx].
  - change (running_min (x :: t) a)
      with (running_min t (if (x <? a)%num then x else a)).
    eapply Rle_trans; [apply running_min_le_start|]; real_arith.
    destruct (Rlt_dec x a); lra.
  - apply (IH _ Hx).
Qed.

Lemma running_min_in (t : list R) (a : R) : In (running_min t a) (a :: t).
Proof.
  unfold running_min; revert a; induction t as [|b t IH]; intros a;
    cbn [fold_left]; [now left|].
  destruct (IH (if (b <? a)%num then b else a)) as [E|Hin].
  - rewrite <- E; destruct (b <? a)%num; [right; now left | now left].
  - right; now right.
Qed.

Lemma np_min_le (l : list R) (x : R) : In x l -> np_min l <= x.
Proof.
  destruct l as [|a t]; [intros []|]; intros [->|Hx]; cbn [np_min].
  - apply running_min_le_start.
  - now apply running_min_le_in.
Qed.

Lemma np_min_in (l : list R) : l <> [] -> In (np_min l) l.
Proof.
  destruct l as [|a t]; [contradiction|]; intros _; apply running_min_in.
Qed.

Lemma np_sum_lower_bound (l : list R) (m : R) :
  (forall x, In x l -> m <= x) -> IZR (Z.of_nat (length l)) * m <= np_sum l.
Proof.
  induction l as [|a l IH]; intros Hm.
  - rewrite np_sum_nil; cbn; lra.
  - rewrite np_sum_cons; cbn [length]; rewrite Nat2Z.inj_succ, succ_IZR.
    specialize (IH (fun x Hx => Hm x (or_intror Hx))).
    pose proof (Hm a (or_introl eq_refl)); lra.
Qed.

Lemma np_min_le_average (l : list R) : l <> [] -> np_min l <= np_average l.
Proof.
  intros Hl; unfold np_average; real_arith.
  pose proof (length_positive l Hl) as Hpos.
  pose proof (np_sum_lower_bound l (np_min l) (np_min_le l)) as Hs.
  apply Rmult_le_reg_l with (r := IZR (Z.of_nat (length l))); [exact Hpos|].
  replace (IZR (Z.of_nat (length l)) * (np_sum l / IZR (Z.of_nat (length l))))
    with (np_sum l) by (field; lra).
  exact Hs.
Qed.

Lemma np_average_constant (l : list R) (a : R) :
  l <> [] -> (forall x, In x l -> x = a) -> np_average l = a.
Proof.
  intros Hl Ha; unfold np_average; real_arith.
  pose proof (length_positive l Hl) as Hpos.
  assert (Hs : np_sum l = IZR (Z.of_nat (length l)) * a).
  { clear Hl Hpos; induction l as [|x l IH]; [rewrite np_sum_nil; cbn; lra|].
    rewrite np_sum_cons, IH by (intros y Hy; apply Ha; now right).
    rewrite (Ha x (or_introl eq_refl)).
    cbn [length]; rewrite Nat2Z.inj_succ, succ_IZR; lra. }
  rewrite Hs; field; lra.
Qed.

Lemma np_std_constant (l : list R) (a : R) :
  l <> [] -> (forall x, In x l -> x = a) -> np_std l = 0.
Proof.
  intros Hl Ha; unfold np_std; cbv zeta.
  rewrite (np_average_constant l a Hl Ha).
  rewrite (np_average_constant _ 0).
  - real_arith; apply sqrt_0.
  - destruct l; [contradiction | discriminate].
  - intros x Hx; apply in_map_iff in Hx; destruct Hx as [b [<- Hb]].
    rewrite (Ha b Hb); real_arith; lra.
Qed.

Lemma estimates_identical {A : Type} (f : list R -> A) (W_hat : list R)
    (W_hat_list : list (list R)) :
  (forall W, In W W_hat_list -> W = W_hat) ->
  forall e, In e (map f W_hat_list) -> e = f W_hat.
Proof.
  intros HW e He; apply in_map_iff in He; destruct He as [W [<- HIn]].
  now rewrite (HW W HIn).
Qed.

Lemma excess_risk_exact
    (W_hat_list : list (list R)) (test_dataset : list (list R * Z)) :
  W_hat_list <> [] -> test_dataset <> [] ->
  let risks := logistic_loss_estimates W_hat_list test_dataset in
  risks = map (fun W_hat =>
                 np_sum (map (fun s => ln (1 + exp (- np_dot W_hat (fst s) * IZR (snd s))))
                             test_dataset)
                 / IZR (Z.of_nat (length test_dataset)))
              W_hat_list /\
  excess_risk (computeLosses W_hat_list test_dataset)
  = np_sum risks / IZR (Z.of_nat (length W_hat_list)) - np_min risks /\
  In (np_min risks) risks /\
  (forall r, In r risks -> np_min risks <= r) /\
  0 <= excess_risk (computeLosses W_hat_list test_dataset).
Proof.
  intros HW Ht risks.
  assert (Hr : risks <> []).
  { subst risks; unfold logistic_loss_estimates.
    destruct W_hat_list; [contradiction | discriminate]. }
  split; [|split; [|split; [|split]]].
  - subst risks; unfold logistic_loss_estimates.
    apply map_ext; intros W_hat; unfold np_average, logistic_loss.
    now rewrite length_map.
  - cbn [computeLosses excess_risk]; fold risks; unfold np_average.
    subst risks; unfold logistic_loss_estimates; now rewrite length_map.
  - now apply np_min_in.
  - apply np_min_le.
  - cbn [computeLosses excess_risk]; fold risks; real_arith.
    pose proof (np_min_le_average risks Hr); lra.
Qed.

Lemma identical_predictors_exact
    (W_hat : list R) (W_hat_list : list (list R))
    (test_dataset : list (list R * Z)) :
  W_hat_list <> [] -> (forall W, In W W_hat_list -> W = W_hat) ->
  test_dataset <> [] ->
  std_risk (computeLosses W_hat_list test_dataset) = 0 /\
  std_binary_err (computeLosses W_hat_list test_dataset) = 0.
Proof.
  intros HW Hid Ht; cbn [computeLosses std_risk std_binary_err].
  unfold logistic_loss_estimates, binary_loss_estimates; split.
  - eapply np_std_constant; [destruct W_hat_list; [contradiction|discriminate]|].
    exact (estimates_identical _ W_hat W_hat_list Hid).
  - eapply np_std_constant; [destruct W_hat_list; [contradiction|discriminate]|].
    exact (estimates_identical _ W_hat W_hat_list Hid).
Qed.

Lemma single_predictor_exact
    (W_hat : list R) (test_dataset : list (list R * Z)) :
  test_dataset <> [] ->
  excess_risk (computeLosses [W_hat] test_dataset) = 0 /\
  std_risk (computeLosses [W_hat] test_dataset) = 0 /\
  std_binary_err (computeLosses [W_hat] test_dataset) = 0.
Proof.
  intros Ht; cbn [computeLosses excess_risk std_risk std_binary_err].
  unfold logistic_loss_estimates, binary_loss_estimates; cbn [map].
  split; [|split].
  - unfold np_average at 1, np_sum at 1; cbn [np_min running_min fold_left length].
    real_arith; cbn [Z.of_nat Pos.of_succ_nat]; lra.
  - eapply np_std_constant; [discriminate|].
    intros x [<-|[]]; reflexivity.
  - eapply np_std_constant; [discriminate|].
    intros x [<-|[]]; reflexivity.
Qed.

End ExactRisk.

(** ** The risk estimator in binary64 *)

Ltac float_arith :=
  cbn [num_of_Z num_add num_sub num_mul num_div num_opp num_gtb num_ltb
       num_neqb np_sqrt float_Arith] in *.

(** One finite value that averages to itself: the mean minus the minimum
    and the standard deviation are computed as 0. *)
Lemma np_std_single_binary64 (a : float) :
  averages_exactly 1 a ->
  (np_average [a] - np_min [a])%num = 0%float /\ np_std [a] = 0%float.
Proof.
  intros [Hm Hf]; cbn [repeat] in Hm; unfold np_std; cbv zeta.
  cbn [np_min running_min fold_left map]; rewrite Hm; float_arith.
  rewrite Hf; split; reflexivity.
Qed.

(** Two copies of a finite value that average to it: the standard deviation
    is computed as 0. *)
Lemma np_std_pair_binary64 (a : float) :
  averages_exactly 2 a -> np_std [a; a] = 0%float.
Proof.
  intros [Hm Hf]; cbn [repeat] in Hm; unfold np_std; cbv zeta.
  cbn [map]; rewrite Hm; float_arith; rewrite Hf; reflexivity.
Qed.

(** ** The claims on the risk estimator *)

(** C2 (as stated, refuted): in binary64 the excess risk of six copies of
    the predictor [2, 1] on the single test sample ([1, 1], 1) is -2^-57:
    the six equal average losses 0.04858735157374196 have a computed mean
    one unit in the last place below them. *)
Lemma excess_risk_negative_binary64 :
  excess_risk (computeLosses (repeat [2; 1]%float 6) [([1; 1]%float, 1%Z)])
  = (-0x1p-57)%float
  /\ PrimFloat.ltb
       (excess_risk (computeLosses (repeat [2; 1]%float 6) [([1; 1]%float, 1%Z)]))
       0%float = true.
Proof. split; vm_compute; reflexivity. Qed.

(** C2 (amended): in every arithmetic the first field of [computeLosses] is
    the computed mean of the predictors' average logistic losses minus their
    computed minimum; with exact real arithmetic, for a non-empty collection
    of predictors and a non-empty test set, that minimum is an element of
    the list below every element and the excess risk is never negative. *)
Theorem excess_risk_nonnegative :
  (forall (num : Type) (AR : Arith num) (TR : Transcendental num)
          (W_hat_list : list (list num)) (test_dataset : list (list num * Z)),
      excess_risk (computeLosses W_hat_list test_dataset)
      = (np_average (logistic_loss_estimates W_hat_list test_dataset)
         - np_min (logistic_loss_estimates W_hat_list test_dataset))%num) /\
  (forall (W_hat_list : list (list R)) (test_dataset : list (list R * Z)),
      W_hat_list <> [] -> test_dataset <> [] ->
      let risks := logistic_loss_estimates W_hat_list test_dataset in
      risks = map (fun W_hat =>
                     (np_sum (map (fun s => ln (1 + exp (- np_dot W_hat (fst s)
                                                         * IZR (snd s))))
                                  test_dataset)
                      / IZR (Z.of_nat (length test_dataset)))%R)
                  W_hat_list /\
      excess_risk (computeLosses W_hat_list test_dataset)
      = (np_sum risks / IZR (Z.of_nat (length W_hat_list)) - np_min risks)%R /\
      In (np_min risks) risks /\
      (forall r, In r risks -> (np_min risks <= r)%R) /\
      (0 <= excess_risk (computeLosses W_hat_list test_dataset))%R).
Proof.
  split; [reflexivity | exact excess_risk_exact].
Qed.

(** C2 (amended), on one predictor and one test sample. *)
Lemma excess_risk_nonnegative_witness :
  (0 <= excess_risk (computeLosses [[1%R]] [([1%R], 1%Z)]))%R.
Proof.
  exact (proj2 (proj2 (proj2 (proj2
    (proj2 excess_risk_nonnegative [[1%R]] [([1%R], 1%Z)]
       ltac:(discriminate) ltac:(discriminate)))))).
Defined.







(** * Further properties of the code *)

(** ** norm and project, over the reals *)

Section ExactNorm.

Local Open Scope R_scope.

Lemma sum_squares_nil : sum_squares ([] : list R) = 0.
Proof. reflexivity. Qed.

Lemma sum_squares_app (a b : list R) :
  sum_squares (a ++ b) = sum_squares a + sum_squares b.
Proof.
  induction a as [|c a IH]; cbn [app].
  - rewrite sum_squares_nil; lra.
  - rewrite !sum_squares_cons, IH; lra.
Qed.

Lemma sum_squares_zero (v : list R) :
  sum_squares v = 0 <-> Forall (fun c => c = 0) v.
Proof.
  induction v as [|c v IH].
  - split; [constructor | reflexivity].
  - rewrite sum_squares_cons; pose proof (sum_squares_nonneg v) as Hv.
    split.
    + intros E; assert (Hc : c * c = 0) by nra.
      constructor; [nra | apply IH; nra].
    + intros F; inversion F as [|? ? Hc Ht]; subst.
      apply IH in Ht; rewrite Ht; lra.
Qed.

Lemma sum_squares_map_le (f : R -> R) (v : list R) :
  (forall c, f c * f c <= c * c) ->
  sum_squares (map f v) <= sum_squares v.
Proof.
  intros Hf; induction v as [|c v IH]; cbn [map]; [lra|].
  rewrite !sum_squares_cons; pose proof (Hf c); lra.
Qed.

Lemma sum_squares_np_scale (c : R) (v : list R) :
  sum_squares (np_scale c v) = c * c * sum_squares v.
Proof.
  unfold np_scale; induction v as [|a v IH]; cbn [map].
  - rewrite sum_squares_nil; lra.
  - rewrite !sum_squares_cons, IH; real_arith; lra.
Qed.

Lemma clamp_R_square (c : R) : clamp c * clamp c <= c * c.
Proof.
  unfold clamp; real_arith.
  destruct (Rgt_dec c 1); [nra|].
  destruct (Rlt_dec c (-1)); nra.
Qed.

Lemma norm_R_nonneg (v : list R) : 0 <= norm v.
Proof. rewrite norm_sum_squares; apply sqrt_pos. Qed.

(** X1: the norm is never negative, and it is 0 exactly on the vectors all
    of whose coordinates are 0. *)
Theorem norm_definite (v : list R) :
  0 <= norm v /\ (norm v = 0 <-> Forall (fun c => c = 0) v).
Proof.
  split; [apply norm_R_nonneg|].
  rewrite norm_sum_squares, <- sum_squares_zero; real_arith; split.
  - intros E; apply sqrt_eq_0; [apply sum_squares_nonneg | exact E].
  - intros ->; apply sqrt_0.
Qed.

(** X2: scaling a vector by [c] scales its norm by the absolute value of
    [c]. *)
Theorem norm_homogeneous (c : R) (v : list R) :
  norm (np_scale c v) = Rabs c * norm v.
Proof.
  rewrite !norm_sum_squares, sum_squares_np_scale; real_arith.
  rewrite sqrt_mult by (try apply sum_squares_nonneg; nra).
  f_equal; fold (Rsqr c); apply sqrt_Rsqr_abs.
Qed.

(** X3: at every scenario value, projecting never makes the norm larger. *)
Theorem project_norm_le (scenario : Z) (v : list R) :
  norm (project scenario v) <= norm v.
Proof.
  destruct (Z.eq_dec scenario 1) as [->|H1].
  { rewrite project_hypercube, !norm_sum_squares; real_arith.
    apply sqrt_le_1_alt, sum_squares_map_le, clamp_R_square. }
  destruct (Z.eq_dec scenario 2) as [->|H2];
    [|rewrite project_other by assumption; lra].
  rewrite project_ball_R; destruct (Rgt_dec (norm v) 1) as [Hn|Hn]; [|lra].
  rewrite norm_rescaled by exact Hn; lra.
Qed.

Lemma map_fixed {A : Type} (f : A -> A) (l : list A) :
  map f l = l <-> Forall (fun a => f a = a) l.
Proof.
  induction l as [|a l IH]; cbn [map].
  - split; [constructor | reflexivity].
  - split.
    + intros E; injection E as Ea El; constructor; [exact Ea | now apply IH].
    + intros F; inversion F as [|? ? Ha Hl]; subst.
      apply IH in Hl; now rewrite Ha, Hl.
Qed.

Lemma clamp_R_fixed_iff (c : R) : clamp c = c <-> -1 <= c <= 1.
Proof.
  split; [intros <-; apply clamp_R_range | apply clamp_R_fixed].
Qed.

(** X4: the vectors that [project] leaves unchanged are exactly those of the
    constraint set: all coordinates in [-1, 1] on the hypercube, norm at most
    1 on the ball. *)
Theorem project_fixed_points (v : list R) :
  (project 1 v = v <-> Forall (fun c => -1 <= c <= 1) v) /\
  (project 2 v = v <-> norm v <= 1).
Proof.
  split.
  - rewrite project_hypercube, map_fixed; split; intros F;
      (eapply Forall_impl; [|exact F]); intros c; apply clamp_R_fixed_iff.
  - split.
    + intros E; rewrite <- E; apply norm_project_ball.
    + intros Hn; rewrite project_ball_R.
      destruct (Rgt_dec (norm v) 1); [lra | reflexivity].
Qed.

End ExactNorm.

(** ** project in binary64 *)

(** X5: in binary64, no coordinate of a hypercube projection compares above
    1 or below -1, whatever floats the vector holds. *)
Theorem project_hypercube_range_binary64 (v : list float) :
  Forall (fun c => PrimFloat.ltb 1 c = false /\ PrimFloat.ltb c (-1) = false)
         (project 1 v).
Proof.
  rewrite project_hypercube; apply Forall_forall; intros c Hc.
  apply in_map_iff in Hc; destruct Hc as [a [<- _]].
  rewrite clamp_float_unfold.
  destruct (PrimFloat.ltb 1 a) eqn:E1; [split; reflexivity|].
  destruct (PrimFloat.ltb a (-1)) eqn:E2; [split; reflexivity|].
  now split.
Qed.

(** ** The sampler *)

Lemma counting_generator_sound (num : Type) :
  random_sample_sound (@counting_generator num).
Proof.
  intros population k g Hk; cbn [random_sample counting_generator fst]; split.
  - rewrite length_firstn, length_rev; lia.
  - intros y Hy; apply In_rev.
    rewrite <- (firstn_skipn k (rev population)); apply in_or_app; now left.
Qed.

Section SamplerFacts.

Context {num rng : Type} {AR : Arith num} {TR : Transcendental num}
        {RG : Random num rng}.
Local Open Scope num_scope.

Lemma replicateM_Forall {A : Type} (P : A -> Prop) (m : State rng A) :
  (forall g, P (fst (m g))) ->
  forall n g, Forall P (fst (replicateM n m g)).
Proof.
  intros Hm; induction n as [|n IH]; intros g; cbn [replicateM];
    [constructor|].
  unfold bind, ret; specialize (Hm g); destruct (m g) as [a g1].
  specialize (IH g1); destruct (replicateM n m g1) as [l g2].
  cbn [fst] in *; now constructor.
Qed.

(** The sample as the code builds it from the draws. *)
Lemma get_Sample_Point_unfold (scenario : Z) (sigma : num) (g : rng) :
  exists (u_vector : list num),
    length u_vector = inputDimension /\
    fst (get_Sample_Point scenario sigma g)
    = (project scenario u_vector ++ [#1],
       nth 0 (fst (random_sample [(-1)%Z; 1%Z] 1 g)) 0%Z).
Proof.
  unfold get_Sample_Point, bind, ret.
  destruct (random_sample _ _ g) as [l g1]; cbn [fst].
  set (m := if (nth 0 l 0 =? -1)%Z then _ else _).
  assert (Hm : length (fst (m g1)) = inputDimension).
  { subst m; destruct (nth 0 l 0 =? -1)%Z; apply replicateM_length. }
  destruct (m g1) as [u g2]; cbn [fst] in *.
  exists u; split; [exact Hm | reflexivity].
Qed.

Lemma sample_shape (scenario : Z) (sigma : num) (g : rng) :
  random_sample_sound RG ->
  let sample := fst (get_Sample_Point scenario sigma g) in
  length (fst sample) = (inputDimension + 1)%nat /\
  nth inputDimension (fst sample) #0 = #1 /\
  (exists u_vector, length u_vector = inputDimension /\
     firstn inputDimension (fst sample) = project scenario u_vector) /\
  is_label (snd sample).
Proof.
  intros Hs sample; subst sample.
  destruct (get_Sample_Point_unfold scenario sigma g) as [u [Hu ->]].
  cbn [fst snd].
  assert (Hp : length (project scenario u) = inputDimension)
    by now rewrite project_length.
  split; [rewrite length_app, Hp; reflexivity|].
  split; [rewrite <- Hp at 1; apply nth_middle|].
  split.
  - exists u; split; [exact Hu|].
    rewrite <- Hp at 1; rewrite firstn_app, firstn_all, Nat.sub_diag.
    cbn [firstn]; apply app_nil_r.
  - destruct (Hs [(-1)%Z; 1%Z] 1%nat g ltac:(cbn; lia)) as [Hl Hin].
    destruct (fst (random_sample [(-1)%Z; 1%Z] 1 g)) as [|y [|? ?]];
      try discriminate Hl.
    cbn [nth]; destruct (Hin y (or_introl eq_refl)) as [<-|[<-|[]]];
      [now right | now left].
Qed.

(** X6: the test set holds exactly [num_test_samples] = 400 samples, every
    one of dimension D+1 with the bias 1 last and, when [random.sample]
    returns a member of the population, a label 1 or -1. *)
Theorem gen_test_dataset_shape (scenario : Z) (sigma : num) (g : rng) :
  random_sample_sound RG ->
  let test_dataset := fst (gen_test_dataset scenario sigma g) in
  length test_dataset = 400%nat /\
  Forall (fun sample =>
            length (fst sample) = (inputDimension + 1)%nat
            /\ nth inputDimension (fst sample) #0 = #1
            /\ is_label (snd sample))
         test_dataset.
Proof.
  intros Hs test_dataset; subst test_dataset; unfold gen_test_dataset.
  split; [apply replicateM_length|].
  apply replicateM_Forall; intros g0.
  destruct (sample_shape scenario sigma g0 Hs) as [H1 [H2 [_ H3]]].
  now repeat split.
Qed.

End SamplerFacts.

(** X6, on the counting generator. *)
Lemma gen_test_dataset_shape_witness :
  length (fst (gen_test_dataset (RG := counting_generator) 2 0%R O)) = 400%nat.
Proof.
  exact (proj1 (gen_test_dataset_shape (RG := counting_generator) 2 0%R O
                  (counting_generator_sound R))).
Defined.

Section ExactSampler.

Context {rng : Type} {RG : Random R rng}.
Local Open Scope R_scope.

Lemma project_in_domain (scenario : Z) (v : list R) :
  in_domain scenario (project scenario v).
Proof.
  unfold in_domain.
  destruct (Z.eqb_spec scenario 1) as [->|H1].
  { rewrite project_hypercube; apply Forall_forall; intros c Hc.
    apply in_map_iff in Hc; destruct Hc as [a [<- _]]; apply clamp_R_range. }
  destruct (Z.eqb_spec scenario 2) as [->|H2]; [apply norm_project_ball | exact I].
Qed.

Lemma sum_squares_hypercube (v : list R) :
  Forall (fun c => -1 <= c <= 1) v -> sum_squares v <= INR (length v).
Proof.
  induction 1 as [|c v Hc Hv IH].
  - rewrite sum_squares_nil; cbn; lra.
  - rewrite sum_squares_cons; cbn [length]; rewrite S_INR; nra.
Qed.

(** X7: over the reals, the first D coordinates of a sample lie in the
    constraint set of the scenario and the last one is the bias 1.  On the
    hypercube the whole sample lies in the hypercube and its norm is at most
    [rho]; on the ball its norm lies between 1 and the square root of 2. *)
Theorem get_Sample_Point_in_domain (scenario : Z) (sigma : R) (g : rng) :
  let x := fst (fst (get_Sample_Point scenario sigma g)) in
  length x = (inputDimension + 1)%nat /\
  nth inputDimension x 0 = 1 /\
  in_domain scenario (firstn inputDimension x) /\
  (scenario = 1%Z -> in_domain 1 x /\ norm x <= sgd_rho 1) /\
  (scenario = 2%Z -> 1 <= norm x <= sqrt 2).
Proof.
  intros x; subst x.
  destruct (get_Sample_Point_unfold scenario sigma g) as [u [Hu ->]].
  cbn [fst].
  assert (Hp : length (project scenario u) = inputDimension)
    by now rewrite project_length.
  assert (Hf : firstn inputDimension (project scenario u ++ [#1%num])
               = project scenario u).
  { rewrite <- Hp at 1; rewrite firstn_app, firstn_all, Nat.sub_diag.
    cbn [firstn]; apply app_nil_r. }
  pose proof (project_in_domain scenario u) as Hd.
  split; [rewrite length_app, Hp; reflexivity|].
  split; [rewrite <- Hp at 1; apply nth_middle|].
  split; [now rewrite Hf|].
  split; intros ->; unfold in_domain in Hd; cbn [Z.eqb Pos.eqb] in Hd.
  - assert (Hall : Forall (fun c => -1 <= c <= 1) (project 1 u ++ [#1%num])).
    { apply Forall_app; split; [exact Hd|].
      constructor; [real_arith; lra | constructor]. }
    split; [exact Hall|].
    apply sum_squares_hypercube in Hall.
    rewrite length_app, Hp in Hall; cbn [length] in Hall.
    rewrite norm_sum_squares; unfold sgd_rho, sgd_M; cbn [Z.eqb Pos.eqb].
    real_arith.
    change (2 ^ 2 * (Z.of_nat inputDimension + 1))%Z with 24%Z.
    replace (sqrt 24 / 2) with (sqrt 6).
    + apply sqrt_le_1_alt.
      replace 6 with (INR (inputDimension + 1)) by (cbn; lra); exact Hall.
    + replace 24 with ((2 * 2) * 6) by lra.
      rewrite sqrt_mult, sqrt_square by lra; lra.
  - rewrite norm_sum_squares in *; rewrite sum_squares_app.
    replace (sum_squares [#1%num]) with 1
      by (rewrite sum_squares_cons, sum_squares_nil; real_arith; lra).
    real_arith; pose proof (sum_squares_nonneg (project 2 u)) as H0.
    assert (H1 : sum_squares (project 2 u) <= 1).
    { apply sqrt_le_0; [exact H0 | lra | rewrite sqrt_1; exact Hd]. }
    split.
    + rewrite <- sqrt_1 at 1; apply sqrt_le_1_alt; lra.
    + apply sqrt_le_1_alt; lra.
Qed.

End ExactSampler.

(** ** The losses and the gradient, over the reals *)

Section ExactGradient.

Local Open Scope R_scope.

Lemma np_dot_acc (l : list (R * R)) (a : R) :
  fold_left (fun s p => (s + fst p * snd p)%num) l a
  = a + fold_left (fun s p => (s + fst p * snd p)%num) l 0.
Proof.
  revert a; induction l as [|p l IH]; intros a; cbn [fold_left].
  - lra.
  - rewrite (IH (a + fst p * snd p)%num), (IH (0 + fst p * snd p)%num).
    real_arith; lra.
Qed.

Lemma np_dot_cons (a b : R) (w x : list R) :
  np_dot (a :: w) (b :: x) = a * b + np_dot w x.
Proof.
  unfold np_dot; cbn [combine fold_left fst snd]; real_arith.
  rewrite np_dot_acc; real_arith; lra.
Qed.

Lemma np_dot_nil_l (x : list R) : np_dot [] x = 0.
Proof. reflexivity. Qed.

Lemma np_dot_nil_r (w : list R) : np_dot w [] = 0.
Proof. now destruct w. Qed.

Lemma np_dot_comm (w x : list R) : np_dot w x = np_dot x w.
Proof.
  revert x; induction w as [|a w IH]; intros [|b x];
    rewrite ?np_dot_nil_l, ?np_dot_nil_r; try reflexivity.
  rewrite !np_dot_cons, IH; lra.
Qed.

Lemma np_dot_scale_l (c : R) (w x : list R) :
  np_dot (np_scale c w) x = c * np_dot w x.
Proof.
  unfold np_scale; revert x; induction w as [|a w IH]; intros [|b x];
    cbn [map]; rewrite ?np_dot_nil_l, ?np_dot_nil_r; try lra.
  rewrite !np_dot_cons, IH; real_arith; lra.
Qed.

Lemma np_dot_self (v : list R) : np_dot v v = sum_squares v.
Proof.
  induction v as [|c v IH]; [reflexivity|].
  now rewrite np_dot_cons, sum_squares_cons, IH.
Qed.

(** The dot product after a step of size [t] against the direction [d]. *)
Lemma np_dot_step (t : R) (w d x : list R) :
  length d = length w ->
  np_dot (np_sub w (np_scale t d)) x = np_dot w x - t * np_dot d x.
Proof.
  unfold np_sub, np_scale; revert d x; induction w as [|a w IH];
    intros [|b d] [|c x] Hl; try discriminate Hl; cbn [map combine fst snd];
    rewrite ?np_dot_nil_l, ?np_dot_nil_r; try lra.
  injection Hl as Hl; rewrite !np_dot_cons, IH by exact Hl; real_arith; lra.
Qed.

Lemma logistic_loss_R (w x : list R) (y : Z) :
  logistic_loss w x y = ln (1 + exp (- np_dot w x * IZR y)).
Proof. reflexivity. Qed.

Lemma logistic_loss_gradient_R (W X : list R) (y : Z) :
  logistic_loss_gradient W X y
  = np_scale (-1 / (1 + exp (IZR y * np_dot W X)) * IZR y) X.
Proof. reflexivity. Qed.

Lemma ln_le_compat (a b : R) : 0 < a -> a <= b -> ln a <= ln b.
Proof.
  intros Ha [Hlt | ->]; [left; now apply ln_increasing | right; reflexivity].
Qed.

Lemma logistic_loss_positive (w x : list R) (y : Z) :
  0 < logistic_loss w x y.
Proof.
  rewrite logistic_loss_R.
  pose proof (exp_pos (- np_dot w x * IZR y)) as He.
  rewrite <- ln_1; apply ln_increasing; lra.
Qed.

Lemma misclassified_margin (w x : list R) (y : Z) :
  is_label y -> binary_loss w x y = 1%Z -> 0 <= - np_dot w x * IZR y.
Proof.
  intros Hy; rewrite binary_loss_R, np_sign_R.
  set (d := np_dot w x).
  destruct (Req_dec_T _ (IZR y)) as [E|E]; [discriminate|]; intros _.
  destruct Hy as [-> | ->]; cbn [IZR IPR] in *;
    destruct (Rlt_dec d 0); try destruct (Rgt_dec d 0); try lra;
    exfalso; apply E; lra.
Qed.

Lemma logistic_loss_ge_binary_loss (w x : list R) (y : Z) :
  is_label y -> IZR (binary_loss w x y) * ln 2 <= logistic_loss w x y.
Proof.
  intros Hy; pose proof (logistic_loss_positive w x y) as Hpos.
  destruct (binary_loss_bit w x y) as [E|E]; rewrite E; [cbn [IZR]; lra|].
  pose proof (misclassified_margin w x y Hy E) as Hm.
  rewrite logistic_loss_R; replace (IZR 1 * ln 2) with (ln 2) by lra.
  apply ln_le_compat; [lra|].
  assert (1 <= exp (- np_dot w x * IZR y)); [|lra].
  rewrite <- exp_0; destruct Hm as [Hm|Hm];
    [left; apply exp_increasing; exact Hm | rewrite <- Hm; lra].
Qed.

(** X8: the logistic loss is positive, and for a label 1 or -1 it is at
    least [ln 2] times the binary loss: a misclassified sample costs at
    least [ln 2], and a sample that costs less than [ln 2] is classified
    correctly. *)
Theorem logistic_loss_dominates_binary_loss (w x : list R) (y : Z) :
  is_label y ->
  0 < logistic_loss w x y /\
  IZR (binary_loss w x y) * ln 2 <= logistic_loss w x y /\
  (logistic_loss w x y < ln 2 -> binary_loss w x y = 0%Z).
Proof.
  intros Hy; pose proof (logistic_loss_ge_binary_loss w x y Hy) as Hd.
  split; [apply logistic_loss_positive|]; split; [exact Hd|].
  intros Hlt; destruct (binary_loss_bit w x y) as [E|E]; [exact E|].
  rewrite E in Hd; cbn [IZR IPR] in Hd; lra.
Qed.

(** X8, on a sample that the weights misclassify. *)
Lemma logistic_loss_dominates_binary_loss_witness :
  0 < logistic_loss [1; 0] [-2; 1] 1.
Proof.
  exact (proj1 (logistic_loss_dominates_binary_loss [1; 0] [-2; 1] 1
                  (or_introl eq_refl))).
Defined.

Lemma derivable_pt_lim_ext (f g : R -> R) (t l : R) :
  (forall s, f s = g s) -> derivable_pt_lim f t l -> derivable_pt_lim g t l.
Proof.
  intros E Hf eps Heps; destruct (Hf eps Heps) as [delta Hd].
  exists delta; intros h Hh Hlt; rewrite <- !E; now apply Hd.
Qed.

(** The derivative of [t |-> ln (1 + exp (- (a - t * b) * y))] at 0. *)
Lemma logistic_line_derivative (a b y : R) :
  derivable_pt_lim (fun t => ln (1 + exp (- (a - t * b) * y))) 0
                   (y * b / (1 + exp (y * a))).
Proof.
  set (lin := (fct_cte (- a * y) + mult_real_fct (b * y) id)%F).
  assert (Hlin : derivable_pt_lim lin 0 (0 + b * y * 1)).
  { apply derivable_pt_lim_plus;
      [apply derivable_pt_lim_const
      | apply derivable_pt_lim_scal, derivable_pt_lim_id]. }
  assert (Hexp : derivable_pt_lim (comp exp lin) 0
                   (exp (lin 0) * (0 + b * y * 1))).
  { apply derivable_pt_lim_comp; [exact Hlin | apply derivable_pt_lim_exp]. }
  assert (Hsum : derivable_pt_lim (fct_cte 1 + comp exp lin)%F 0
                   (0 + exp (lin 0) * (0 + b * y * 1))).
  { apply derivable_pt_lim_plus; [apply derivable_pt_lim_const | exact Hexp]. }
  assert (Hpos : 0 < (fct_cte 1 + comp exp lin)%F 0).
  { unfold plus_fct, fct_cte, comp; pose proof (exp_pos (lin 0)); lra. }
  pose proof (derivable_pt_lim_comp _ ln 0 _ _ Hsum
                (derivable_pt_lim_ln _ Hpos)) as Hln.
  assert (Hl0 : lin 0 = - (y * a)).
  { unfold lin, plus_fct, fct_cte, mult_real_fct, id; lra. }
  replace (y * b / (1 + exp (y * a)))
    with (/ (fct_cte 1 + comp exp lin)%F 0
          * (0 + exp (lin 0) * (0 + b * y * 1))).
  - eapply derivable_pt_lim_ext; [|exact Hln].
    intros s; unfold comp, lin, plus_fct, fct_cte, mult_real_fct, id.
    do 3 apply f_equal; lra.
  - unfold plus_fct, fct_cte, comp; rewrite Hl0, exp_Ropp.
    pose proof (exp_pos (y * a)); field; split; lra.
Qed.

(** X9: [logistic_loss_gradient] is the gradient of [logistic_loss] in the
    weights: for every direction [d] of the dimension of [w], the derivative
    at 0 of the loss after a step of size [t] against [d] is minus the dot
    product of the gradient with [d]. *)
Theorem logistic_loss_gradient_is_gradient (w x d : list R) (y : Z) :
  length d = length w ->
  derivable_pt_lim
    (fun t => logistic_loss (np_sub w (np_scale t d)) x y) 0
    (- np_dot (logistic_loss_gradient w x y) d).
Proof.
  intros Hl.
  apply derivable_pt_lim_ext
    with (f := fun t => ln (1 + exp (- (np_dot w x - t * np_dot d x) * IZR y))).
  { intros t; now rewrite logistic_loss_R, np_dot_step. }
  replace (- np_dot (logistic_loss_gradient w x y) d)
    with (IZR y * np_dot d x / (1 + exp (IZR y * np_dot w x))).
  - apply logistic_line_derivative.
  - rewrite logistic_loss_gradient_R, np_dot_scale_l, (np_dot_comm x d).
    pose proof (exp_pos (IZR y * np_dot w x)); field; lra.
Qed.

(** X9, on a direction of dimension 2. *)
Lemma logistic_loss_gradient_is_gradient_witness :
  exists l : R,
    l = - np_dot (logistic_loss_gradient [1; 0] [2; 1] 1) [0; 1] /\
    derivable_pt_lim
      (fun t => logistic_loss (np_sub [1; 0] (np_scale t [0; 1])) [2; 1] 1) 0 l.
Proof.
  eexists; split; [reflexivity|].
  exact (logistic_loss_gradient_is_gradient [1; 0] [2; 1] [0; 1] 1 eq_refl).
Defined.

(** X10: the gradient has the dimension of the sample, and a gradient step
    never raises the loss to first order: along the gradient itself the
    derivative of the loss in the step size is minus the squared norm of
    the gradient. *)
Theorem gradient_step_descends (w x : list R) (y : Z) :
  length x = length w ->
  length (logistic_loss_gradient w x y) = length x /\
  derivable_pt_lim
    (fun lr => logistic_loss
                 (np_sub w (np_scale lr (logistic_loss_gradient w x y))) x y)
    0 (- (norm (logistic_loss_gradient w x y) * norm (logistic_loss_gradient w x y)))
  /\ - (norm (logistic_loss_gradient w x y) * norm (logistic_loss_gradient w x y)) <= 0.
Proof.
  intros Hl.
  assert (Hg : length (logistic_loss_gradient w x y) = length x).
  { unfold logistic_loss_gradient, np_scale; apply length_map. }
  split; [exact Hg|].
  assert (Hn : norm (logistic_loss_gradient w x y)
               * norm (logistic_loss_gradient w x y)
               = np_dot (logistic_loss_gradient w x y)
                        (logistic_loss_gradient w x y)).
  { rewrite np_dot_self, norm_sum_squares; real_arith.
    apply sqrt_sqrt, sum_squares_nonneg. }
  split.
  - rewrite Hn.
    apply derivable_pt_lim_ext
      with (f := fun t =>
                   ln (1 + exp (- (np_dot w x
                                   - t * np_dot (logistic_loss_gradient w x y) x)
                                * IZR y))).
    { intros t; rewrite logistic_loss_R, np_dot_step; [reflexivity|].
      now rewrite Hg. }
    set (G := logistic_loss_gradient w x y).
    replace (- np_dot G G)
      with (IZR y * np_dot G x / (1 + exp (IZR y * np_dot w x))).
    + apply logistic_line_derivative.
    + subst G; rewrite logistic_loss_gradient_R.
      rewrite !np_dot_scale_l, (np_dot_comm x (np_scale _ x)), np_dot_scale_l.
      pose proof (exp_pos (IZR y * np_dot w x)); field; lra.
  - pose proof (norm_R_nonneg (logistic_loss_gradient w x y)); nra.
Qed.

(** X10, on a sample of dimension 2. *)
Lemma gradient_step_descends_witness :
  length (logistic_loss_gradient [1; 0] [2; 1] 1) = length [2; 1].
Proof.
  exact (proj1 (gradient_step_descends [1; 0] [2; 1] 1 eq_refl)).
Defined.

End ExactGradient.

(** ** Training: the samples drawn and the constraint set *)

Section TrainingFacts.

Context {num rng : Type} {AR : Arith num} {TR : Transcendental num}
        {RG : Random num rng}.
Local Open Scope num_scope.

Lemma sgd_step_update (scenario : Z) (sigma lr : num) (W : list num) (g : rng) :
  sgd_step scenario sigma lr W g
  = (sgd_update scenario lr W (fst (get_Sample_Point scenario sigma g)),
     snd (get_Sample_Point scenario sigma g)).
Proof.
  unfold sgd_step, sgd_update, bind, ret.
  now destruct (get_Sample_Point scenario sigma g) as [[X y] g1].
Qed.

Lemma sgd_iterates_on_samples (n : nat) (scenario : Z) (sigma lr : num) :
  forall (W : list num) (g : rng),
    sgd_iterates n scenario sigma lr W g
    = (sgd_on_samples scenario lr W
         (fst (replicateM n (get_Sample_Point scenario sigma) g)),
       snd (replicateM n (get_Sample_Point scenario sigma) g)).
Proof.
  induction n as [|n IH]; intros W g; cbn [sgd_iterates replicateM];
    [reflexivity|].
  unfold bind, ret; rewrite sgd_step_update.
  destruct (get_Sample_Point scenario sigma g) as [sample g1]; cbn [fst snd].
  rewrite IH.
  now destruct (replicateM n (get_Sample_Point scenario sigma) g1) as [l g2].
Qed.

(** X11: in every arithmetic, the draws of a training run do not depend on
    the weights: [sgd] draws [num_training_samples - 1] samples in a row
    (none when that is not positive), leaves the generator where these draws
    leave it, and its trajectory is the zero vector followed by the updates
    on these samples in order. *)
Theorem sgd_trains_on_drawn_samples (N scenario : Z) (sigma : num) (g : rng) :
  let draws := replicateM (Z.to_nat (N - 1)) (get_Sample_Point scenario sigma) g in
  sgd_W_list N scenario sigma g
  = (np_zeros (inputDimension + 1)
     :: sgd_on_samples scenario (learning_rate N scenario)
          (np_zeros (inputDimension + 1)) (fst draws),
     snd draws) /\
  snd (sgd N scenario sigma g) = snd draws /\
  length (fst draws) = Z.to_nat (N - 1).
Proof.
  intros draws; subst draws.
  rewrite sgd_average, sgd_W_list_iterates, sgd_iterates_on_samples.
  cbv zeta; cbn [fst snd].
  repeat split; apply replicateM_length.
Qed.

End TrainingFacts.

Section ExactTraining.

Context {rng : Type} {RG : Random R rng}.
Local Open Scope R_scope.

Lemma in_domain_zeros (scenario : Z) (n : nat) :
  in_domain scenario (np_zeros n).
Proof.
  unfold in_domain.
  destruct (scenario =? 1)%Z.
  { unfold np_zeros; apply Forall_forall; intros c Hc.
    apply repeat_spec in Hc; subst c; real_arith; lra. }
  destruct (scenario =? 2)%Z; [|exact I].
  rewrite norm_sum_squares, sum_squares_zeros; real_arith.
  rewrite sqrt_0; lra.
Qed.

Lemma sgd_iterates_in_domain (n : nat) (scenario : Z) (sigma lr : R) :
  forall (W : list R) (g : rng),
    Forall (in_domain scenario) (fst (sgd_iterates n scenario sigma lr W g)).
Proof.
  induction n as [|n IH]; intros W g; cbn [sgd_iterates]; [constructor|].
  unfold bind, ret; rewrite sgd_step_update.
  specialize (IH (sgd_update scenario lr W
                    (fst (get_Sample_Point scenario sigma g)))
                 (snd (get_Sample_Point scenario sigma g))).
  destruct (sgd_iterates n _ _ _ _ _) as [its g2]; cbn [fst] in *.
  constructor; [apply project_in_domain | exact IH].
Qed.

Lemma np_sum_upper_bound (l : list R) (m : R) :
  (forall x, In x l -> x <= m) -> np_sum l <= IZR (Z.of_nat (length l)) * m.
Proof.
  induction l as [|a l IH]; intros Hm.
  - rewrite np_sum_nil; cbn; lra.
  - rewrite np_sum_cons; cbn [length]; rewrite Nat2Z.inj_succ, succ_IZR.
    specialize (IH (fun x Hx => Hm x (or_intror Hx))).
    pose proof (Hm a (or_introl eq_refl)); lra.
Qed.

Lemma np_average_bounds (l : list R) (lo hi : R) :
  l <> [] -> (forall x, In x l -> lo <= x <= hi) ->
  lo <= np_average l <= hi.
Proof.
  intros Hl Hb; unfold np_average; real_arith.
  pose proof (length_positive l Hl) as Hpos.
  pose proof (np_sum_lower_bound l lo (fun x Hx => proj1 (Hb x Hx))) as H1.
  pose proof (np_sum_upper_bound l hi (fun x Hx => proj2 (Hb x Hx))) as H2.
  set (n := IZR (Z.of_nat (length l))) in *.
  split.
  - apply Rmult_le_reg_l with (r := n); [exact Hpos|].
    replace (n * (np_sum l / n)) with (np_sum l) by (field; lra); exact H1.
  - apply Rmult_le_reg_l with (r := n); [exact Hpos|].
    replace (n * (np_sum l / n)) with (np_sum l) by (field; lra); exact H2.
Qed.

Lemma nth_in_hypercube (v : list R) (j : nat) :
  Forall (fun c => -1 <= c <= 1) v -> -1 <= nth j v 0 <= 1.
Proof.
  intros Hv; destruct (Nat.lt_ge_cases j (length v)) as [Hj|Hj].
  - rewrite Forall_forall in Hv; apply Hv, nth_In, Hj.
  - rewrite nth_overflow by exact Hj; lra.
Qed.

(** X13: with an iteration count of 1 or less, 0 and negative counts
    included, the loop body never runs: the trajectory is the zero vector
    alone (one entry, not [num_training_samples] entries), nothing is
    drawn, and [sgd] returns the zero vector of dimension D+1. *)
Theorem sgd_without_iterations (N scenario : Z) (sigma : R) (g : rng) :
  (N <= 1)%Z ->
  sgd_W_list N scenario sigma g = ([np_zeros (inputDimension + 1)], g) /\
  sgd N scenario sigma g = (np_zeros (inputDimension + 1), g).
Proof.
  intros HN.
  assert (E : sgd_W_list N scenario sigma g
              = ([np_zeros (inputDimension + 1)], g)).
  { rewrite sgd_W_list_iterates.
    replace (Z.to_nat (N - 1)) with O by lia; reflexivity. }
  split; [exact E|].
  rewrite sgd_average, E; cbn [fst snd]; f_equal.
  unfold np_average_axis0, np_average, np_sum, np_zeros, inputDimension.
  cbn [hd length repeat Nat.add seq map nth fold_left Z.of_nat Pos.of_succ_nat].
  real_arith.
  repeat (f_equal; try lra).
Qed.

End ExactTraining.

(** X13, at an iteration count of 0. *)
Lemma sgd_without_iterations_witness :
  sgd (RG := counting_generator) 0 2 0%R O = (np_zeros (inputDimension + 1), O).
Proof.
  exact (proj2 (sgd_without_iterations (RG := counting_generator) 0 2 0%R O
                  ltac:(lia))).
Defined.

(** ** The risk estimator, further *)

Section ExactEstimator.

Local Open Scope R_scope.

Lemma np_sum_map_le {A : Type} (f h : A -> R) (l : list A) :
  (forall a, In a l -> f a <= h a) -> np_sum (map f l) <= np_sum (map h l).
Proof.
  induction l as [|a l IH]; intros Hl; cbn [map]; [lra|].
  rewrite !np_sum_cons.
  specialize (IH (fun b Hb => Hl b (or_intror Hb))).
  pose proof (Hl a (or_introl eq_refl)); lra.
Qed.

Lemma np_sum_map_scale {A : Type} (f : A -> R) (c : R) (l : list A) :
  np_sum (map (fun a => f a * c) l) = np_sum (map f l) * c.
Proof.
  induction l as [|a l IH]; cbn [map]; [rewrite np_sum_nil; lra|].
  rewrite !np_sum_cons, IH; lra.
Qed.

Lemma np_average_map_le {A : Type} (f h : A -> R) (l : list A) :
  l <> [] -> (forall a, In a l -> f a <= h a) ->
  np_average (map f l) <= np_average (map h l).
Proof.
  intros Hl Hfh; unfold np_average; rewrite !length_map; real_arith.
  pose proof (length_positive l Hl) as Hpos.
  pose proof (np_sum_map_le f h l Hfh).
  apply Rmult_le_compat_r; [left; now apply Rinv_0_lt_compat | assumption].
Qed.

Lemma np_average_map_scale {A : Type} (f : A -> R) (c : R) (l : list A) :
  np_average (map (fun a => f a * c) l) = np_average (map f l) * c.
Proof.
  unfold np_average; rewrite !length_map, np_sum_map_scale; real_arith.
  unfold Rdiv; lra.
Qed.

Lemma binary_loss_R_range (w x : list R) (y : Z) :
  0 <= IZR (binary_loss w x y) <= 1.
Proof.
  destruct (binary_loss_bit w x y) as [-> | ->]; cbn [IZR IPR]; lra.
Qed.

Lemma binary_estimate_range (W_hat : list R) (test_dataset : list (list R * Z)) :
  test_dataset <> [] ->
  0 <= np_average (map (fun s => IZR (binary_loss W_hat (fst s) (snd s)))
                       test_dataset) <= 1.
Proof.
  intros Ht; apply np_average_bounds.
  - destruct test_dataset; [contradiction | discriminate].
  - intros b Hb; apply in_map_iff in Hb; destruct Hb as [s [<- _]].
    apply binary_loss_R_range.
Qed.

Lemma np_std_nonneg (l : list R) : 0 <= np_std l.
Proof. unfold np_std; real_arith; apply sqrt_pos. Qed.

Lemma np_std_unit_range (l : list R) :
  l <> [] -> (forall b, In b l -> 0 <= b <= 1) -> np_std l <= 1.
Proof.
  intros Hl Hb; unfold np_std; cbv zeta; real_arith.
  pose proof (np_average_bounds l 0 1 Hl Hb) as Hm.
  rewrite <- sqrt_1; apply sqrt_le_1_alt.
  apply (np_average_bounds (map _ l) 0 1).
  - destruct l; [contradiction | discriminate].
  - intros d Hd; apply in_map_iff in Hd; destruct Hd as [b [<- Hin]].
    specialize (Hb b Hin); real_arith.
    generalize dependent (np_average l); intros m Hm.
    assert (Hd : -1 <= b - m <= 1) by lra.
    clear Hb Hm; generalize dependent (b - m); intros d Hd.
    pose proof (Rle_0_sqr d) as H0; unfold Rsqr in H0.
    assert (H1 : 0 <= (1 - d) * (1 + d)) by (apply Rmult_le_pos; lra).
    split; lra.
Qed.

(** X14: for non-empty predictors and a non-empty test set, the average
    binary error lies between 0 and 1, and both standard deviations are
    never negative; the one of the binary errors is at most 1. *)
Theorem computeLosses_ranges
    (W_hat_list : list (list R)) (test_dataset : list (list R * Z)) :
  W_hat_list <> [] -> test_dataset <> [] ->
  0 <= avg_binary_err (computeLosses W_hat_list test_dataset) <= 1 /\
  0 <= std_risk (computeLosses W_hat_list test_dataset) /\
  0 <= std_binary_err (computeLosses W_hat_list test_dataset) <= 1.
Proof.
  intros HW Ht; cbn [computeLosses avg_binary_err std_risk std_binary_err].
  assert (Hne : binary_loss_estimates W_hat_list test_dataset <> []).
  { unfold binary_loss_estimates; destruct W_hat_list;
      [contradiction | discriminate]. }
  assert (Hb : forall b, In b (binary_loss_estimates W_hat_list test_dataset)
                         -> 0 <= b <= 1).
  { unfold binary_loss_estimates; intros b Hin.
    apply in_map_iff in Hin; destruct Hin as [W [<- _]].
    now apply binary_estimate_range. }
  split; [now apply np_average_bounds|].
  split; [apply np_std_nonneg|].
  split; [apply np_std_nonneg | now apply np_std_unit_range].
Qed.

(** X14, on one predictor and one test sample. *)
Lemma computeLosses_ranges_witness :
  0 <= avg_binary_err (computeLosses [[1]] [([1], 1%Z)]) <= 1.
Proof.
  exact (proj1 (computeLosses_ranges [[1]] [([1], 1%Z)]
                  ltac:(discriminate) ltac:(discriminate))).
Defined.

(** X15: when every test label is 1 or -1, [ln 2] times the average binary
    error is at most the average risk, which is the excess risk plus the
    minimum risk. *)
Theorem average_risk_dominates_error
    (W_hat_list : list (list R)) (test_dataset : list (list R * Z)) :
  W_hat_list <> [] -> test_dataset <> [] ->
  Forall (fun s => is_label (snd s)) test_dataset ->
  avg_binary_err (computeLosses W_hat_list test_dataset) * ln 2
  <= excess_risk (computeLosses W_hat_list test_dataset)
     + np_min (logistic_loss_estimates W_hat_list test_dataset).
Proof.
  intros HW Ht Hy; cbn [computeLosses avg_binary_err excess_risk]; real_arith.
  replace (np_average (logistic_loss_estimates W_hat_list test_dataset)
           - np_min (logistic_loss_estimates W_hat_list test_dataset)
           + np_min (logistic_loss_estimates W_hat_list test_dataset))
    with (np_average (logistic_loss_estimates W_hat_list test_dataset)) by lra.
  unfold binary_loss_estimates, logistic_loss_estimates.
  rewrite <- np_average_map_scale.
  apply np_average_map_le; [exact HW|]; intros W _.
  rewrite <- np_average_map_scale.
  apply np_average_map_le; [exact Ht|]; intros s Hs.
  rewrite Forall_forall in Hy.
  apply logistic_loss_ge_binary_loss, Hy, Hs.
Qed.

(** X15, on one predictor and one test sample. *)
Lemma average_risk_dominates_error_witness :
  avg_binary_err (computeLosses [[1]] [([1], 1%Z)]) * ln 2
  <= excess_risk (computeLosses [[1]] [([1], 1%Z)])
     + np_min (logistic_loss_estimates [[1]] [([1], 1%Z)]).
Proof.
  apply average_risk_dominates_error.
  - discriminate.
  - discriminate.
  - constructor; [left; reflexivity | constructor].
Defined.

Lemma np_sum_permutation (l l' : list R) :
  Permutation l l' -> np_sum l = np_sum l'.
Proof.
  induction 1 as [|x l l' _ IH|x y l|l l' l'' _ IH1 _ IH2];
    rewrite ?np_sum_cons; lra.
Qed.

Lemma np_average_permutation (l l' : list R) :
  Permutation l l' -> np_average l = np_average l'.
Proof.
  intros Hp; unfold np_average.
  now rewrite (np_sum_permutation _ _ Hp), (Permutation_length Hp).
Qed.

Lemma np_min_permutation (l l' : list R) :
  Permutation l l' -> np_min l = np_min l'.
Proof.
  intros Hp; destruct l as [|a t].
  - apply Permutation_nil in Hp; now subst.
  - assert (Hl : a :: t <> []) by discriminate.
    assert (Hl' : l' <> []).
    { intros ->; apply Permutation_sym, Permutation_nil in Hp; discriminate. }
    apply Rle_antisym.
    + apply np_min_le, (Permutation_in _ (Permutation_sym Hp)), np_min_in, Hl'.
    + apply np_min_le, (Permutation_in _ Hp), np_min_in, Hl.
Qed.

Lemma np_std_permutation (l l' : list R) :
  Permutation l l' -> np_std l = np_std l'.
Proof.
  intros Hp; unfold np_std; cbv zeta.
  rewrite (np_average_permutation _ _ Hp); f_equal.
  apply np_average_permutation; now apply Permutation_map.
Qed.

(** X16: the four results do not depend on the order of the predictors nor
    on the order of the test samples. *)
Theorem computeLosses_order_independent
    (W_hat_list W_hat_list' : list (list R))
    (test_dataset test_dataset' : list (list R * Z)) :
  Permutation W_hat_list W_hat_list' ->
  Permutation test_dataset test_dataset' ->
  computeLosses W_hat_list test_dataset
  = computeLosses W_hat_list' test_dataset'.
Proof.
  intros HW Ht.
  assert (Hl : Permutation (logistic_loss_estimates W_hat_list test_dataset)
                 (logistic_loss_estimates W_hat_list' test_dataset')).
  { unfold logistic_loss_estimates.
    rewrite (map_ext _ (fun W_hat =>
               np_average (map (fun s => logistic_loss W_hat (fst s) (snd s))
                               test_dataset'))).
    - now apply Permutation_map.
    - intros W; apply np_average_permutation; now apply Permutation_map. }
  assert (Hb : Permutation (binary_loss_estimates W_hat_list test_dataset)
                 (binary_loss_estimates W_hat_list' test_dataset')).
  { unfold binary_loss_estimates.
    rewrite (map_ext _ (fun W_hat =>
               np_average (map (fun s => (#(binary_loss W_hat (fst s) (snd s)))%num)
                               test_dataset'))).
    - now apply Permutation_map.
    - intros W; apply np_average_permutation; now apply Permutation_map. }
  unfold computeLosses; cbv zeta.
  rewrite (np_average_permutation _ _ Hl), (np_min_permutation _ _ Hl),
    (np_std_permutation _ _ Hl), (np_average_permutation _ _ Hb),
    (np_std_permutation _ _ Hb).
  reflexivity.
Qed.

(** X16, on two predictors swapped. *)
Lemma computeLosses_order_independent_witness :
  computeLosses [[1]; [2]] [([1], 1%Z)] = computeLosses [[2]; [1]] [([1], 1%Z)].
Proof.
  apply computeLosses_order_independent.
  - apply perm_swap.
  - apply Permutation_refl.
Defined.

Lemma np_sign_R_scale (c d : R) : 0 < c -> np_sign (c * d) = np_sign d.
Proof.
  intros Hc; rewrite !np_sign_R.
  destruct (Rlt_dec d 0), (Rlt_dec (c * d) 0); try reflexivity; try nra;
    destruct (Rgt_dec d 0), (Rgt_dec (c * d) 0); try reflexivity; nra.
Qed.

(** X17: the binary loss depends on the direction of the weights only:
    scaling them by a positive factor does not change it. *)
Theorem binary_loss_scale_invariant (c : R) (w x : list R) (y : Z) :
  0 < c -> binary_loss (np_scale c w) x y = binary_loss w x y.
Proof.
  intros Hc; now rewrite !binary_loss_R, np_dot_scale_l, np_sign_R_scale.
Qed.

(** X17, on weights doubled. *)
Lemma binary_loss_scale_invariant_witness :
  binary_loss (np_scale 2 [1; -1]) [3; 1] 1 = binary_loss [1; -1] [3; 1] 1.
Proof.
  apply binary_loss_scale_invariant; lra.
Defined.

End ExactEstimator.

(** ** The experiment driver *)

Section DriverFacts.

Context {num rng : Type} {AR : Arith num} {TR : Transcendental num}
        {RG : Random num rng}.
Local Open Scope num_scope.

Lemma expirement_sweep_losses (scenario : Z) (sigma : num)
    (test_dataset : list (list num * Z)) :
  forall (ns : list Z) (e0 s0 b0 sb0 : list num) (g : rng),
  exists losses : list (@Losses num),
    length losses = length ns /\
    Forall (losses_of_trials test_dataset) losses /\
    fst (expirement_sweep scenario sigma test_dataset ns e0 s0 b0 sb0 g)
    = (e0 ++ map excess_risk losses, s0 ++ map std_risk losses,
       b0 ++ map avg_binary_err losses, sb0 ++ map std_binary_err losses).
Proof.
  induction ns as [|n ns IH]; intros e0 s0 b0 sb0 g; cbn [expirement_sweep].
  - exists []; cbn [map length]; rewrite !app_nil_r.
    repeat split; constructor.
  - unfold bind.
    pose proof (replicateM_length _ 30 (sgd n scenario sigma) g) as HW.
    destruct (replicateM 30 (sgd n scenario sigma) g) as [W_hat_list g1].
    cbn [fst] in HW.
    set (L := computeLosses W_hat_list test_dataset).
    destruct (IH (e0 ++ [excess_risk L]) (s0 ++ [std_risk L])
                 (b0 ++ [avg_binary_err L]) (sb0 ++ [std_binary_err L]) g1)
      as [losses [Hlen [Hall E]]].
    exists (L :: losses); split; [cbn [length]; now rewrite Hlen|].
    split; [constructor; [now exists W_hat_list | exact Hall]|].
    rewrite E; cbn [map]; now rewrite <- !app_assoc.
Qed.

(** The plots of one call of [expirement]: for each of the two values of
    sigma, a test set of 400 samples, the losses of 30 trials at each of the
    four iteration counts, and two plots of these losses. *)
Lemma expirement_unfold (scenario : Z) (g : rng) :
  exists (test1 test2 : list (list num * Z)) (losses1 losses2 : list (@Losses num)),
    length test1 = 400%nat /\ length test2 = 400%nat /\
    length losses1 = 4%nat /\ length losses2 = 4%nat /\
    Forall (losses_of_trials test1) losses1 /\
    Forall (losses_of_trials test2) losses2 /\
    fst (expirement scenario g)
    = [ {| errorbar_x := n_list;
           errorbar_y := map excess_risk losses1;
           errorbar_yerr := map std_risk losses1 |};
        {| errorbar_x := n_list;
           errorbar_y := map avg_binary_err losses1;
           errorbar_yerr := map std_binary_err losses1 |};
        {| errorbar_x := n_list;
           errorbar_y := map excess_risk losses2;
           errorbar_yerr := map std_risk losses2 |};
        {| errorbar_x := n_list;
           errorbar_y := map avg_binary_err losses2;
           errorbar_yerr := map std_binary_err losses2 |} ].
Proof.
  unfold expirement, sigma_list; cbn [expirement_loop]; unfold bind, ret.
  pose proof (replicateM_length _ num_test_samples
                (get_Sample_Point scenario (#5 / #100)) g) as Ht1.
  fold (gen_test_dataset scenario (#5 / #100)) in Ht1.
  destruct (gen_test_dataset scenario (#5 / #100) g) as [test1 g1].
  destruct (expirement_sweep_losses scenario (#5 / #100) test1 n_list
              [] [] [] [] g1) as [losses1 [Hl1 [Ha1 E1]]].
  destruct (expirement_sweep scenario (#5 / #100) test1 n_list [] [] [] [] g1)
    as [[[[e1 s1] b1] sb1] g2].
  cbn [fst] in E1, Ht1; injection E1 as -> -> -> ->.
  pose proof (replicateM_length _ num_test_samples
                (get_Sample_Point scenario #3) g2) as Ht2.
  fold (gen_test_dataset scenario #3) in Ht2.
  destruct (gen_test_dataset scenario #3 g2) as [test2 g3].
  destruct (expirement_sweep_losses scenario #3 test2 n_list
              [] [] [] [] g3) as [losses2 [Hl2 [Ha2 E2]]].
  destruct (expirement_sweep scenario #3 test2 n_list [] [] [] [] g3)
    as [[[[e2 s2] b2] sb2] g4].
  cbn [fst] in E2, Ht2; injection E2 as -> -> -> ->.
  exists test1, test2, losses1, losses2; cbn [fst app].
  repeat split; assumption.
Qed.

Lemma expirement_shape (scenario : Z) (g : rng) :
  length (fst (expirement scenario g)) = 4%nat
  /\ Forall errorbar_shape (fst (expirement scenario g)).
Proof.
  destruct (expirement_unfold scenario g)
    as [t1 [t2 [l1 [l2 [_ [_ [H1 [H2 [_ [_ ->]]]]]]]]]].
  split; [reflexivity|].
  repeat constructor; cbn [errorbar_x errorbar_y errorbar_yerr];
    rewrite length_map; assumption.
Qed.

(** X18: in every arithmetic, one call of [expirement] draws exactly four
    plots and the script as a whole eight; every plot has [n_list] on its
    x axis and as many values and error bars as [n_list] has entries. *)
Theorem expirement_draws_four_plots (scenario : Z) (g : rng) :
  length (fst (expirement scenario g)) = 4%nat /\
  Forall errorbar_shape (fst (expirement scenario g)) /\
  length (fst (main g)) = 8%nat /\
  Forall errorbar_shape (fst (main g)).
Proof.
  destruct (expirement_shape scenario g) as [H4 Hs].
  split; [exact H4|]; split; [exact Hs|].
  unfold main, bind, ret.
  destruct (expirement_shape 1 g) as [Ha Hsa].
  destruct (expirement 1 g) as [plots1 g1]; cbn [fst] in *.
  destruct (expirement_shape 2 g1) as [Hb Hsb].
  destruct (expirement 2 g1) as [plots2 g2]; cbn [fst] in *.
  split; [rewrite length_app, Ha, Hb; reflexivity|].
  apply Forall_app; now split.
Qed.

Lemma expirement_sweep_trials (scenario : Z) (sigma : num)
    (test_dataset : list (list num * Z)) :
  forall (ns : list Z) (e0 s0 b0 sb0 : list num) (g : rng),
  exists losses : list (@Losses num),
    Forall2 (trial_losses scenario sigma test_dataset) ns losses /\
    fst (expirement_sweep scenario sigma test_dataset ns e0 s0 b0 sb0 g)
    = (e0 ++ map excess_risk losses, s0 ++ map std_risk losses,
       b0 ++ map avg_binary_err losses, sb0 ++ map std_binary_err losses).
Proof.
  induction ns as [|n ns IH]; intros e0 s0 b0 sb0 g; cbn [expirement_sweep].
  - exists []; cbn [map]; rewrite !app_nil_r; split; [constructor|reflexivity].
  - unfold bind.
    assert (HL : trial_losses scenario sigma test_dataset n
                   (computeLosses
                      (fst (replicateM 30 (sgd n scenario sigma) g))
                      test_dataset)) by (now exists g).
    destruct (replicateM 30 (sgd n scenario sigma) g) as [W_hat_list g1].
    cbn [fst] in HL.
    set (L := computeLosses W_hat_list test_dataset) in *.
    destruct (IH (e0 ++ [excess_risk L]) (s0 ++ [std_risk L])
                 (b0 ++ [avg_binary_err L]) (sb0 ++ [std_binary_err L]) g1)
      as [losses [Hall E]].
    exists (L :: losses); split; [now constructor|].
    rewrite E; cbn [map]; now rewrite <- !app_assoc.
Qed.

(** One call of [expirement], in full: the test set of each sigma, the
    losses of the trials at each iteration count, and the four plots. *)
Lemma expirement_unfold_trials (scenario : Z) (g : rng) :
  exists (g' : rng) (losses1 losses2 : list (@Losses num)),
    Forall2 (trial_losses scenario (#5 / #100)
               (fst (gen_test_dataset scenario (#5 / #100) g)))
            n_list losses1 /\
    Forall2 (trial_losses scenario #3 (fst (gen_test_dataset scenario #3 g')))
            n_list losses2 /\
    fst (expirement scenario g)
    = [ {| errorbar_x := n_list;
           errorbar_y := map excess_risk losses1;
           errorbar_yerr := map std_risk losses1 |};
        {| errorbar_x := n_list;
           errorbar_y := map avg_binary_err losses1;
           errorbar_yerr := map std_binary_err losses1 |};
        {| errorbar_x := n_list;
           errorbar_y := map excess_risk losses2;
           errorbar_yerr := map std_risk losses2 |};
        {| errorbar_x := n_list;
           errorbar_y := map avg_binary_err losses2;
           errorbar_yerr := map std_binary_err losses2 |} ].
Proof.
  unfold expirement, sigma_list; cbn [expirement_loop]; unfold bind, ret.
  destruct (gen_test_dataset scenario (#5 / #100) g) as [test1 g1].
  destruct (expirement_sweep_trials scenario (#5 / #100) test1 n_list
              [] [] [] [] g1) as [losses1 [Ha1 E1]].
  destruct (expirement_sweep scenario (#5 / #100) test1 n_list [] [] [] [] g1)
    as [[[[e1 s1] b1] sb1] g2].
  cbn [fst] in E1 |- *; injection E1 as -> -> -> ->.
  exists g2, losses1.
  destruct (gen_test_dataset scenario #3 g2) as [test2 g3].
  destruct (expirement_sweep_trials scenario #3 test2 n_list
              [] [] [] [] g3) as [losses2 [Ha2 E2]].
  destruct (expirement_sweep scenario #3 test2 n_list [] [] [] [] g3)
    as [[[[e2 s2] b2] sb2] g4].
  cbn [fst] in E2 |- *; injection E2 as -> -> -> ->.
  exists losses2; cbn [app]; repeat split; assumption.
Qed.

End DriverFacts.

Section ExactDriver.

Context {rng : Type} {RG : Random R rng}.
Local Open Scope R_scope.

Lemma losses_of_trials_ranges (test_dataset : list (list R * Z)) (L : Losses) :
  test_dataset <> [] -> losses_of_trials test_dataset L ->
  0 <= excess_risk L /\ 0 <= std_risk L /\
  0 <= avg_binary_err L <= 1 /\ 0 <= std_binary_err L <= 1.
Proof.
  intros Ht [W_hat_list [HW ->]].
  assert (HWne : W_hat_list <> []) by (intros ->; discriminate HW).
  cbn [computeLosses excess_risk std_risk avg_binary_err std_binary_err].
  assert (Hlne : logistic_loss_estimates W_hat_list test_dataset <> []).
  { unfold logistic_loss_estimates; destruct W_hat_list;
      [contradiction | discriminate]. }
  assert (Hbne : binary_loss_estimates W_hat_list test_dataset <> []).
  { unfold binary_loss_estimates; destruct W_hat_list;
      [contradiction | discriminate]. }
  assert (Hb : forall b, In b (binary_loss_estimates W_hat_list test_dataset)
                         -> 0 <= b <= 1).
  { unfold binary_loss_estimates; intros b Hin.
    apply in_map_iff in Hin; destruct Hin as [W [<- _]].
    now apply binary_estimate_range. }
  split; [real_arith; pose proof (np_min_le_average _ Hlne); lra|].
  split; [apply np_std_nonneg|].
  split; [now apply np_average_bounds|].
  split; [apply np_std_nonneg | now apply np_std_unit_range].
Qed.

Lemma trial_losses_ranges (scenario : Z) (sigma : R)
    (test_dataset : list (list R * Z)) (ns : list Z) (losses : list Losses) :
  length test_dataset = num_test_samples ->
  Forall2 (trial_losses scenario sigma test_dataset) ns losses ->
  Forall (fun L => 0 <= excess_risk L /\ 0 <= std_risk L /\
                   0 <= avg_binary_err L <= 1 /\
                   0 <= std_binary_err L <= 1)
         losses.
Proof.
  intros Ht; assert (Hne : test_dataset <> [])
    by (intros ->; discriminate Ht).
  induction 1 as [|n L ns losses [g0 ->] _ IH]; constructor; [|exact IH].
  apply (losses_of_trials_ranges test_dataset); [exact Hne|].
  eexists; split; [|reflexivity]; apply replicateM_length.
Qed.

Lemma Forall_map_field {A : Type} (P : R -> Prop) (Q : A -> Prop)
    (f : A -> R) (l : list A) :
  (forall a, Q a -> P (f a)) -> Forall Q l -> Forall P (map f l).
Proof.
  intros H F; apply Forall_forall; intros c Hc.
  apply in_map_iff in Hc; destruct Hc as [a [<- Ha]].
  rewrite Forall_forall in F; apply H, F, Ha.
Qed.

(** X19: over the reals, one call of [expirement] plots, for sigma = 0.05
    on a test set drawn first and then for sigma = 3 on a second test set,
    the losses of 30 trained predictors at each iteration count of [n_list]:
    a plot of the excess risks with [std_risk] as error bars, then a plot of
    the average binary errors with [std_binary_err] as error bars.  No
    excess risk and no error bar is negative, and the average binary errors
    and their error bars lie between 0 and 1. *)
Theorem expirement_plots_in_range (scenario : Z) (g : rng) :
  exists (g' : rng) (losses1 losses2 : list Losses),
    let test1 := fst (gen_test_dataset scenario (#5 / #100)%num g) in
    let test2 := fst (gen_test_dataset scenario (#3)%num g') in
    Forall2 (trial_losses scenario (#5 / #100)%num test1) n_list losses1 /\
    Forall2 (trial_losses scenario (#3)%num test2) n_list losses2 /\
    fst (expirement scenario g)
    = [ {| errorbar_x := n_list;
           errorbar_y := map excess_risk losses1;
           errorbar_yerr := map std_risk losses1 |};
        {| errorbar_x := n_list;
           errorbar_y := map avg_binary_err losses1;
           errorbar_yerr := map std_binary_err losses1 |};
        {| errorbar_x := n_list;
           errorbar_y := map excess_risk losses2;
           errorbar_yerr := map std_risk losses2 |};
        {| errorbar_x := n_list;
           errorbar_y := map avg_binary_err losses2;
           errorbar_yerr := map std_binary_err losses2 |} ] /\
    Forall (fun L => 0 <= excess_risk L /\ 0 <= std_risk L /\
                     0 <= avg_binary_err L <= 1 /\
                     0 <= std_binary_err L <= 1)
           (losses1 ++ losses2).
Proof.
  destruct (expirement_unfold_trials scenario g)
    as [g' [l1 [l2 [H1 [H2 E]]]]].
  exists g', l1, l2; cbv zeta in *.
  split; [exact H1|]; split; [exact H2|]; split; [exact E|].
  apply Forall_app; split.
  - refine (trial_losses_ranges _ _ _ _ _ _ H1).
    unfold gen_test_dataset; apply replicateM_length.
  - refine (trial_losses_ranges _ _ _ _ _ _ H2).
    unfold gen_test_dataset; apply replicateM_length.
Qed.

End ExactDriver.

(** ** The predictor returned lies in the constraint set *)

Section ExactFeasibility.

Context {rng : Type} {RG : Random R rng}.
Local Open Scope R_scope.

Lemma sum_squares_as_sum (v : list R) :
  sum_squares v = np_sum (map (fun c => c * c) v).
Proof.
  induction v as [|c v IH]; [reflexivity|].
  cbn [map]; now rewrite sum_squares_cons, np_sum_cons, IH.
Qed.

Lemma np_sum_map_plus {A : Type} (f h : A -> R) (l : list A) :
  np_sum (map (fun a => f a + h a) l) = np_sum (map f l) + np_sum (map h l).
Proof.
  induction l as [|a l IH]; cbn [map]; [rewrite np_sum_nil; lra|].
  rewrite !np_sum_cons, IH; lra.
Qed.

Lemma map_nth_seq (v : list R) :
  map (fun j => nth j v 0) (seq 0 (length v)) = v.
Proof.
  apply (nth_ext _ _ 0 0); [now rewrite length_map, length_seq|].
  intros j Hj; rewrite length_map, length_seq in Hj.
  exact (nth_map_seq (fun i => nth i v 0) (length v) j 0 Hj).
Qed.

(** The squared distances of [a] to the elements of a list add up to
    something non-negative. *)
Lemma spread_nonneg (a : R) (l : list R) :
  0 <= IZR (Z.of_nat (length l)) * (a * a) - 2 * a * np_sum l
       + np_sum (map (fun c => c * c) l).
Proof.
  induction l as [|x l IH]; cbn [map length].
  - rewrite np_sum_nil; cbn; lra.
  - rewrite !np_sum_cons, Nat2Z.inj_succ, succ_IZR.
    pose proof (Rle_0_sqr (a - x)) as Hs; unfold Rsqr in Hs; lra.
Qed.

(** The square of a sum of [n] numbers is at most [n] times the sum of
    their squares. *)
Lemma square_of_sum_le (l : list R) :
  np_sum l * np_sum l
  <= IZR (Z.of_nat (length l)) * np_sum (map (fun c => c * c) l).
Proof.
  induction l as [|a l IH]; cbn [map length].
  - rewrite np_sum_nil; cbn; lra.
  - rewrite !np_sum_cons, Nat2Z.inj_succ, succ_IZR.
    pose proof (spread_nonneg a l); lra.
Qed.

Lemma np_average_square_le (l : list R) :
  l <> [] ->
  np_average l * np_average l <= np_average (map (fun c => c * c) l).
Proof.
  intros Hl; unfold np_average; rewrite length_map; real_arith.
  pose proof (length_positive l Hl) as Hpos.
  pose proof (square_of_sum_le l) as Hq.
  set (n := IZR (Z.of_nat (length l))) in *.
  set (S := np_sum l) in *; set (Q := np_sum (map _ l)) in *.
  apply Rmult_le_reg_l with (r := n * n); [nra|].
  replace (n * n * (S / n * (S / n))) with (S * S) by (field; lra).
  replace (n * n * (Q / n)) with (n * Q) by (field; lra).
  exact Hq.
Qed.

(** Summing the squares of a table column by column or row by row. *)
Lemma sum_squares_rows_columns (n : nat) (rows : list (list R)) :
  Forall (fun row => length row = n) rows ->
  np_sum (map (fun j => np_sum (map (fun c => c * c)
                                    (map (fun row => nth j row 0) rows)))
              (seq 0 n))
  = np_sum (map sum_squares rows).
Proof.
  induction 1 as [|row rows Hrow _ IH]; cbn [map].
  - rewrite np_sum_nil.
    induction (seq 0 n) as [|j l IHl]; cbn [map];
      [reflexivity | rewrite np_sum_cons, IHl, ?np_sum_nil; lra].
  - rewrite np_sum_cons, <- IH.
    rewrite (map_ext _ (fun j => nth j row 0 * nth j row 0
                                 + np_sum (map (fun c => c * c)
                                             (map (fun r => nth j r 0) rows))))
      by (intros j; now rewrite np_sum_cons).
    rewrite np_sum_map_plus; f_equal.
    rewrite sum_squares_as_sum, <- (map_nth_seq row) at 1.
    now rewrite map_map, Hrow.
Qed.

(** The average of vectors of the unit ball lies in the unit ball. *)
Lemma average_in_ball (n : nat) (rows : list (list R)) :
  rows <> [] ->
  Forall (fun row => length row = n) rows ->
  Forall (fun row => norm row <= 1) rows ->
  norm (np_average_axis0 rows) <= 1.
Proof.
  intros Hne Hlen Hball.
  assert (Hhd : length (hd [] rows) = n).
  { destruct rows as [|r rs]; [contradiction|]; now inversion Hlen. }
  pose proof (length_positive rows Hne) as Hpos.
  rewrite norm_sum_squares; real_arith.
  rewrite <- sqrt_1; apply sqrt_le_1_alt.
  unfold np_average_axis0; rewrite Hhd, sum_squares_as_sum, map_map.
  (* each squared average is at most the average of the squares *)
  eapply Rle_trans.
  { apply np_sum_map_le; intros j _.
    apply (np_average_square_le (map (fun row => nth j row 0) rows)).
    destruct rows; [contradiction | discriminate]. }
  unfold np_average.
  rewrite (map_ext _ (fun j =>
             np_sum (map (fun c => c * c) (map (fun row => nth j row 0) rows))
             * / IZR (Z.of_nat (length rows))))
    by (intros j; rewrite !length_map; reflexivity).
  rewrite np_sum_map_scale, (sum_squares_rows_columns n rows Hlen).
  (* every row contributes at most 1 *)
  assert (Hs : np_sum (map sum_squares rows)
               <= IZR (Z.of_nat (length rows)) * 1).
  { rewrite <- (length_map sum_squares rows).
    apply np_sum_upper_bound; intros q Hq.
    apply in_map_iff in Hq; destruct Hq as [row [<- Hrow]].
    rewrite Forall_forall in Hball; specialize (Hball row Hrow).
    rewrite norm_sum_squares in Hball; real_arith.
    apply sqrt_le_0; [apply sum_squares_nonneg | lra | now rewrite sqrt_1]. }
  apply Rmult_le_reg_l with (r := IZR (Z.of_nat (length rows))); [exact Hpos|].
  replace (IZR (Z.of_nat (length rows))
           * (np_sum (map sum_squares rows) * / IZR (Z.of_nat (length rows))))
    with (np_sum (map sum_squares rows)) by (field; lra).
  lra.
Qed.

(** X12: over the reals, every weight vector of a training run lies in the
    constraint set of the scenario, at every iteration count, and so does
    the averaged predictor that [sgd] returns: its coordinates lie in
    [-1, 1] on the hypercube and its norm is at most 1 on the ball. *)
Theorem sgd_stays_in_domain (N scenario : Z) (sigma : R) (g : rng) :
  Forall (in_domain scenario) (fst (sgd_W_list N scenario sigma g)) /\
  in_domain scenario (fst (sgd N scenario sigma g)).
Proof.
  assert (Hall : Forall (in_domain scenario)
                        (fst (sgd_W_list N scenario sigma g))).
  { rewrite sgd_W_list_iterates; cbv zeta; cbn [fst].
    constructor; [apply in_domain_zeros | apply sgd_iterates_in_domain]. }
  assert (Hne : fst (sgd_W_list N scenario sigma g) <> []).
  { rewrite sgd_W_list_iterates; cbv zeta; cbn [fst]; discriminate. }
  assert (Hlen : Forall (fun W => length W = (inputDimension + 1)%nat)
                        (fst (sgd_W_list N scenario sigma g))).
  { rewrite sgd_W_list_iterates; cbv zeta; cbn [fst].
    constructor; [apply repeat_length|].
    apply sgd_iterates_dimension, repeat_length. }
  split; [exact Hall|].
  rewrite sgd_average; cbn [fst]; unfold in_domain in *.
  destruct (scenario =? 1)%Z.
  - unfold np_average_axis0; apply Forall_forall; intros c Hc.
    apply in_map_iff in Hc; destruct Hc as [j [<- _]].
    apply np_average_bounds.
    + destruct (fst (sgd_W_list N scenario sigma g));
        [contradiction | discriminate].
    + intros x Hx; apply in_map_iff in Hx; destruct Hx as [W [<- HW]].
      apply nth_in_hypercube.
      rewrite Forall_forall in Hall; exact (Hall W HW).
  - destruct (scenario =? 2)%Z; [|exact I].
    now apply (average_in_ball (inputDimension + 1)).
Qed.

End ExactFeasibility.

(** ** Further facts on projection, the step size and the sampler *)

(** X20: in every arithmetic and at every scenario value, [project] returns
    a vector of the dimension of its argument. *)
Theorem project_keeps_dimension {num : Type} {AR : Arith num}
    (scenario : Z) (u_vector : list num) :
  length (project scenario u_vector) = length u_vector.
Proof.
  destruct (Z.eq_dec scenario 1) as [->|H1].
  { rewrite project_hypercube; apply length_map. }
  destruct (Z.eq_dec scenario 2) as [->|H2].
  - rewrite project_ball; destruct (num_gtb _ _); [apply length_map | reflexivity].
  - now rewrite project_other.
Qed.

Section ExactStepSize.

Context {rng : Type} {RG : Random R rng}.
Local Open Scope R_scope.

Lemma sgd_M_positive (scenario : Z) : 0 < sgd_M scenario.
Proof.
  unfold sgd_M; destruct (scenario =? 1)%Z; real_arith; [|lra].
  apply sqrt_lt_R0.
  change (2 ^ 2 * (Z.of_nat inputDimension + 1))%Z with 24%Z; lra.
Qed.

(** X21: for an iteration count of at least 1 the diameter [M] cancels: the
    step size is [2 / sqrt(num_training_samples)] at every scenario, positive
    and at most 2. *)
Theorem learning_rate_closed_form (N scenario : Z) :
  (1 <= N)%Z ->
  learning_rate N scenario = 2 / sqrt (IZR N) /\
  0 < learning_rate N scenario <= 2.
Proof.
  intros HN.
  assert (Hr : 1 <= sqrt (IZR N)).
  { rewrite <- sqrt_1 at 1; apply sqrt_le_1_alt, IZR_le, HN. }
  pose proof (sgd_M_positive scenario) as HM.
  assert (E : learning_rate N scenario = 2 / sqrt (IZR N)).
  { unfold learning_rate, sgd_rho; real_arith; field; lra. }
  split; [exact E|]; rewrite E; split.
  - apply Rdiv_lt_0_compat; lra.
  - apply Rmult_le_reg_r with (r := sqrt (IZR N)); [lra|].
    replace (2 / sqrt (IZR N) * sqrt (IZR N)) with 2 by (field; lra); lra.
Qed.

(** X21, at 100 iterations on the hypercube. *)
Lemma learning_rate_closed_form_witness :
  learning_rate 100 1 = 2 / sqrt 100.
Proof.
  exact (proj1 (learning_rate_closed_form 100 1 ltac:(lia))).
Defined.

Lemma replicateM_constant {A : Type} (m : State rng A) (a : A) :
  (forall g, fst (m g) = a) ->
  forall n g, fst (replicateM n m g) = repeat a n.
Proof.
  intros Hm; induction n as [|n IH]; intros g; cbn [replicateM repeat];
    [reflexivity|].
  unfold bind, ret; specialize (Hm g); destruct (m g) as [b g1].
  specialize (IH g1); destruct (replicateM n m g1) as [l g2].
  cbn [fst] in *; now subst.
Qed.

Lemma sum_squares_repeat (c : R) (n : nat) :
  sum_squares (repeat c n) = INR n * (c * c).
Proof.
  induction n as [|n IH]; cbn [repeat].
  - rewrite sum_squares_nil; cbn; lra.
  - rewrite sum_squares_cons, IH, S_INR; lra.
Qed.

(** A vector of D coordinates of absolute value 1/5 lies in both constraint
    sets, so projection leaves it as it is. *)
Lemma project_center (scenario : Z) (c : R) :
  c = 1 / 5 \/ c = - (1 / 5) ->
  project scenario (repeat c inputDimension) = repeat c inputDimension.
Proof.
  intros Hc.
  destruct (Z.eq_dec scenario 1) as [->|H1].
  { rewrite project_hypercube, map_repeat; f_equal.
    apply clamp_R_fixed; destruct Hc as [-> | ->]; lra. }
  destruct (Z.eq_dec scenario 2) as [->|H2]; [|now rewrite project_other].
  rewrite project_ball_R.
  destruct (Rgt_dec (norm (repeat c inputDimension)) 1) as [Hn|Hn];
    [|reflexivity].
  exfalso; rewrite norm_sum_squares, sum_squares_repeat in Hn; real_arith.
  assert (Hle : sqrt (INR inputDimension * (c * c)) <= 1).
  { rewrite <- sqrt_1; apply sqrt_le_1_alt.
    unfold inputDimension; cbn [INR]; destruct Hc as [-> | ->]; lra. }
  lra.
Qed.

(** X22: with sigma = 0 and a generator whose Gaussian is then its mean,
    every sample is the class centre of its label, which both constraint
    sets contain, followed by the bias: D coordinates -1/5 for the label -1
    and D coordinates 1/5 otherwise, then 1, at every scenario. *)
Theorem get_Sample_Point_without_noise (scenario : Z) (g : rng) :
  random_gauss_degenerate RG ->
  let sample := fst (get_Sample_Point scenario 0 g) in
  fst sample
  = repeat (if (snd sample =? -1)%Z then - (1 / 5) else 1 / 5) inputDimension
    ++ [1].
Proof.
  intros Hg sample; subst sample.
  unfold get_Sample_Point, bind, ret.
  destruct (random_sample _ _ g) as [l g1].
  set (y := nth 0 l 0%Z).
  assert (Hu : fst ((if (y =? -1)%Z
                     then replicateM inputDimension (random_gauss negativeCenter 0)
                     else replicateM inputDimension (random_gauss positiveCenter 0))
                      g1)
               = repeat (if (y =? -1)%Z then - (1 / 5) else 1 / 5) inputDimension).
  { destruct (y =? -1)%Z; apply replicateM_constant; intros g0; apply Hg. }
  match type of Hu with
  | fst ?m = _ => destruct m as [u g2]
  end.
  cbn [fst snd] in *; subst u; f_equal.
  apply project_center; destruct (y =? -1)%Z; [now right | now left].
Qed.

End ExactStepSize.

(** X22, on the counting generator, whose Gaussian is always its mean. *)
Lemma get_Sample_Point_without_noise_witness :
  fst (fst (get_Sample_Point (RG := counting_generator) 2 0%R O))
  = repeat (if (snd (fst (get_Sample_Point (RG := counting_generator) 2 0%R O))
                =? -1)%Z
            then (- (1 / 5))%R else (1 / 5)%R) inputDimension
    ++ [1%R].
Proof.
  apply (get_Sample_Point_without_noise (RG := counting_generator) 2 O).
  intros mu g; reflexivity.
Defined.
